(** * The day-reconstruction pipeline: events, day filter, session grouper,
      session summarizer, sanitizer and report generator.

    A shallow embedding of [models.py], [timeline.py], [story_generator.py]
    and the pipeline part of [main_memory_engine.py].

    Conventions of the embedding.
    - A Python [str] is a list of characters.  Characters are Rocq's [ascii],
      read as the code points U+0000..U+00FF; the character classes of Python
      ([\s], [\d], [\w], [str.lower], [str.isalpha], [str.strip]) are written
      out for this range from CPython's Unicode tables.
    - A naive [datetime] is the number of microseconds since
      0001-01-01T00:00:00, a [date] the number of days since 0001-01-01, a
      [timedelta] a number of microseconds.  All the normalizers build naive
      datetimes ([datetime.strptime] with no zone), so comparison and
      subtraction are those of integers.
    - A raised exception is a value of [result]. *)

From Stdlib Require Import ZArith Bool Ascii String DecimalString Lia.
From Stdlib Require Import List Permutation Sorted.
Import ListNotations.
Local Open Scope Z_scope.

Set Implicit Arguments.

(** ** Strings *)

Definition str := list ascii.

(** A literal of the Python source. *)
Definition py (s : string) : str := list_ascii_of_string s.

Definition code (c : ascii) : N := N_of_ascii c.

Definition str_eqb (a b : str) : bool :=
  if list_eq_dec ascii_dec a b then true else false.

(** ** Exceptions *)

Inductive exn : Type :=
| IndexError      (* list index out of range *)
| OverflowError.  (* timedelta out of its range of days *)

Inductive result (A : Type) : Type :=
| Ok (a : A)
| Raise (e : exn).

Arguments Ok {A} a.
Arguments Raise {A} e.

Definition bind {A B} (m : result A) (k : A -> result B) : result B :=
  match m with
  | Ok a => k a
  | Raise e => Raise e
  end.

Notation "x <- m ;; k" := (bind m (fun x => k))
  (at level 61, m at next level, right associativity).

(** A [for] loop whose body may raise: the state is threaded through the
    items from left to right and the first exception ends the loop. *)
Fixpoint for_each {S X} (body : S -> X -> result S) (items : list X) (st : S)
  : result S :=
  match items with
  | [] => Ok st
  | x :: rest => st' <- body st x ;; for_each body rest st'
  end.

(** ** Dates and times *)

Definition datetime := Z.
Definition date := Z.
Definition timedelta := Z.

Definition us_per_minute : Z := 60000000.
Definition us_per_hour : Z := 3600000000.
Definition us_per_day : Z := 86400000000.

(** [dt.date()] *)
Definition datetime_date (dt : datetime) : date := dt / us_per_day.
(** [dt.hour], [dt.minute] *)
Definition datetime_hour (dt : datetime) : Z := (dt / us_per_hour) mod 24.
Definition datetime_minute (dt : datetime) : Z := (dt / us_per_minute) mod 60.

(** [timedelta(minutes=m)]: the value is normalised to days, seconds and
    microseconds, and the constructor raises when the days fall outside
    -999999999 .. 999999999. *)
Definition max_timedelta_days : Z := 999999999.

Definition timedelta_minutes (m : Z) : result timedelta :=
  let days := m / 1440 in
  if (- max_timedelta_days <=? days) && (days <=? max_timedelta_days)
  then Ok (m * us_per_minute)
  else Raise OverflowError.

(** ** models.py *)

Record Event : Type := mkEvent {
  id : str;
  timestamp_start : datetime;
  timestamp_end : option datetime;
  source_type : str;
  title : str;
  details : list (str * str);
  people : list str;
  location : option str
}.

(** ** timeline.py *)

Module Timeline.

(** [sorted(xs, key=...)]: Python's sort is stable, and a stable sort has one
    possible result, computed here by insertion from the right: an element is
    placed before the first element of the sorted rest whose key is not
    smaller, so it stays ahead of the equal keys that followed it. *)
Section Sorted.
Variable A : Type.
Variable key : A -> Z.

Fixpoint insert_by (x : A) (l : list A) : list A :=
  match l with
  | [] => [x]
  | y :: l' => if key x <=? key y then x :: y :: l' else y :: insert_by x l'
  end.

Definition sorted (l : list A) : list A := fold_right insert_by [] l.
End Sorted.

Definition filter_events_for_day (events : list Event) (target_date : date)
  : list Event :=
  let same_day_events :=
    filter (fun e => datetime_date (timestamp_start e) =? target_date) events in
  sorted timestamp_start same_day_events.

(** The loop state of [group_into_sessions]: the closed sessions and the
    session being built. *)
Definition grouping : Type := (list (list Event) * list Event)%type.

Definition session_step (gap_minutes : Z) (st : grouping) (pc : Event * Event)
  : result grouping :=
  let '(sessions, current_session) := st in
  let '(prev, curr) := pc in
  let gap := timestamp_start curr - timestamp_start prev in
  limit <- timedelta_minutes gap_minutes ;;
  if gap <=? limit
  then Ok (sessions, current_session ++ [curr])
  else Ok (sessions ++ [current_session], [curr]).

Definition group_into_sessions (events : list Event) (gap_minutes : Z)
  : result (list (list Event)) :=
  match events with
  | [] => Ok []
  | first :: rest =>
      st <- for_each (session_step gap_minutes) (combine events rest) ([], [first]) ;;
      let '(sessions, current_session) := st in
      Ok (sessions ++ [current_session])
  end.

Definition default_gap_minutes : Z := 60.

Record SessionSummary : Type := mkSummary {
  start : datetime;
  end_ : datetime;
  locations : list str;
  people_ : list str;
  titles : list str;
  raw_events : list Event
}.

(** The truth value of a string and of an optional string. *)
Definition truthy (s : str) : bool := negb (str_eqb s []).
Definition opt_truthy (o : option str) : bool :=
  match o with Some s => truthy s | None => false end.

(** [e.location for e in session if e.location] *)
Definition session_locations (session : list Event) : list str :=
  flat_map (fun e => match location e with
                     | Some s => if truthy s then [s] else []
                     | None => []
                     end) session.

(** [p for e in session for p in e.people] *)
Definition session_people (session : list Event) : list str :=
  flat_map people session.

Section Summarize.
(** [list(s)] for a set [s]: CPython lists a set in the order of its hash
    table, which for strings depends on the hash seed of the process.
    [set_iter l] is the listing of the set into which the items of [l] were
    added in that order. *)
Variable set_iter : list str -> list str.

Definition summarize_session (session : list Event) : result SessionSummary :=
  match session with
  | [] => Raise IndexError
  | first :: _ =>
      let last_ev := last session first in
      let start := timestamp_start first in
      let end_ := match timestamp_end last_ev with
                  | Some t => t
                  | None => timestamp_start last_ev
                  end in
      let locations := set_iter (session_locations session) in
      let people := set_iter (session_people session) in
      let titles := filter truthy (map title session) in
      Ok (mkSummary start end_ locations people titles session)
  end.
End Summarize.

(** What every listing of a set satisfies: no element twice, and the
    elements are those that were added. *)
Definition set_listing (set_iter : list str -> list str) : Prop :=
  forall l, NoDup (set_iter l) /\ (forall x, In x (set_iter l) <-> In x l).

(** The order of first appearance, as an insertion-ordered container gives. *)
Fixpoint first_seen (l : list str) : list str :=
  match l with
  | [] => []
  | x :: l' => x :: filter (fun y => negb (str_eqb y x)) (first_seen l')
  end.

End Timeline.

(** ** The regular expressions of [story_generator.py] *)

Module Re.

Definition between (lo hi n : N) : bool := (N.leb lo n) && (N.leb n hi).

(** [\s] and [str.isspace]: TAB..CR, FS..US, space, NEL, NBSP. *)
Definition isspace (c : ascii) : bool :=
  let n := code c in
  between 9 13 n || between 28 32 n || N.eqb n 133 || N.eqb n 160.

(** [\d]: the decimal digits. *)
Definition isdigit (c : ascii) : bool := between 48 57 (code c).

(** [str.isalpha]: the letters, with the Latin-1 ones. *)
Definition isalpha (c : ascii) : bool :=
  let n := code c in
  between 65 90 n || between 97 122 n
  || N.eqb n 170 || N.eqb n 181 || N.eqb n 186
  || between 192 214 n || between 216 246 n || between 248 255 n.

(** [\w]: alphanumeric or underscore; the superscripts and fractions of
    Latin-1 count as numeric. *)
Definition isword (c : ascii) : bool :=
  let n := code c in
  isalpha c || isdigit c || N.eqb n 95
  || N.eqb n 178 || N.eqb n 179 || N.eqb n 185 || between 188 190 n.

(** [str.lower], one character. *)
Definition lower_char (c : ascii) : ascii :=
  let n := code c in
  if between 65 90 n || between 192 214 n || between 216 222 n
  then ascii_of_N (n + 32) else c.

Definition lower (s : str) : str := map lower_char s.

(** A regular expression of the fragment the program uses: a sequence of
    items, each a character class, an optional or repeated character class
    (both greedy), or the word boundary. *)
Inductive item : Type :=
| Chr (p : ascii -> bool)              (* one character of the class *)
| Opt (p : ascii -> bool)              (* [p?] *)
| Rep (least : nat) (p : ascii -> bool) (* [p{least,}], so [p*] and [p+] *)
| Boundary.                            (* [\b] *)

Definition regex := list item.

(** A literal character: as it is, and under [re.IGNORECASE]. *)
Definition is_char (a c : ascii) : bool := Ascii.eqb c a.
Definition is_char_i (a c : ascii) : bool := Ascii.eqb (lower_char c) (lower_char a).

Definition literal_i (s : str) : regex := map (fun a => Chr (is_char_i a)) s.

Definition word_before (prev : option ascii) : bool :=
  match prev with Some c => isword c | None => false end.
Definition word_here (s : str) : bool :=
  match s with c :: _ => isword c | [] => false end.

(** The greedy repetition [p{least,}] followed by [k], with backtracking:
    the longest run is tried first. *)
Fixpoint rep (p : ascii -> bool) (k : option ascii -> str -> option str)
    (least : nat) (prev : option ascii) (s : str) {struct s} : option str :=
  let stop := match least with O => k prev s | S _ => None end in
  match s with
  | c :: s' =>
      if p c then
        match rep p k (Nat.pred least) (Some c) s' with
        | Some rest => Some rest
        | None => stop
        end
      else stop
  | [] => stop
  end.

(** [matches r prev s]: the match of [r] at the start of [s], where [prev]
    is the character before it; the result is the text left after the match
    the backtracking search finds first. *)
Fixpoint matches (r : regex) (prev : option ascii) (s : str) {struct r}
  : option str :=
  match r with
  | [] => Some s
  | Chr p :: r' =>
      match s with
      | c :: s' => if p c then matches r' (Some c) s' else None
      | [] => None
      end
  | Opt p :: r' =>
      match s with
      | c :: s' =>
          if p c then
            match matches r' (Some c) s' with
            | Some rest => Some rest
            | None => matches r' prev s
            end
          else matches r' prev s
      | [] => matches r' prev s
      end
  | Rep least p :: r' => rep p (matches r') least prev s
  | Boundary :: r' =>
      if xorb (word_before prev) (word_here s) then matches r' prev s else None
  end.

(** [re.sub(r, repl, s)], scanning from the left.  [skip] counts the
    characters of [s] still inside the match found last.  An empty match is
    replaced and the scan moves on by one character. *)
Fixpoint sub_from (r : regex) (repl : str) (prev : option ascii) (s : str)
    (skip : nat) {struct s} : str :=
  match s with
  | [] =>
      match matches r prev [] with
      | Some _ => repl
      | None => []
      end
  | c :: s' =>
      match skip with
      | S n => sub_from r repl (Some c) s' n
      | O =>
          match matches r prev s with
          | Some rest =>
              match (List.length s - List.length rest)%nat with
              | O => repl ++ c :: sub_from r repl (Some c) s' 0
              | S n => repl ++ sub_from r repl (Some c) s' n
              end
          | None => c :: sub_from r repl (Some c) s' 0
          end
      end
  end.

Definition sub (r : regex) (repl : str) (s : str) : str :=
  sub_from r repl None s 0.

(** [re.search(r, s)] as a truth value. *)
Fixpoint search_from (r : regex) (prev : option ascii) (s : str) : bool :=
  match matches r prev s with
  | Some _ => true
  | None =>
      match s with
      | c :: s' => search_from r (Some c) s'
      | [] => false
      end
  end.

Definition search (r : regex) (s : str) : bool := search_from r None s.

(** [re.split] on a class of one-character separators. *)
Fixpoint split (p : ascii -> bool) (s : str) : list str :=
  match s with
  | [] => [[]]
  | c :: s' =>
      if p c then [] :: split p s'
      else match split p s' with
           | seg :: segs => (c :: seg) :: segs
           | [] => [[c]]
           end
  end.

End Re.

(** ** String methods *)

Fixpoint startswith (prefix s : str) : bool :=
  match prefix, s with
  | [], _ => true
  | a :: prefix', c :: s' => Ascii.eqb a c && startswith prefix' s'
  | _ :: _, [] => false
  end.

(** [needle in s] *)
Fixpoint contains (needle s : str) : bool :=
  startswith needle s ||
  match s with
  | _ :: s' => contains needle s'
  | [] => false
  end.

Fixpoint drop_while (p : ascii -> bool) (s : str) : str :=
  match s with
  | c :: s' => if p c then drop_while p s' else s
  | [] => []
  end.

Definition lstrip (s : str) : str := drop_while Re.isspace s.
Definition rstrip (s : str) : str := rev (drop_while Re.isspace (rev s)).

(** [s.rstrip(chars)] *)
Definition rstrip_chars (chars : str) (s : str) : str :=
  rev (drop_while (fun c => existsb (Ascii.eqb c) chars) (rev s)).

(** [s.strip()] *)
Definition strip (s : str) : str := rstrip (lstrip s).

(** [sep.join(parts)] *)
Fixpoint join (sep : str) (parts : list str) : str :=
  match parts with
  | [] => []
  | [p] => p
  | p :: rest => p ++ sep ++ join sep rest
  end.

Definition newline : ascii := ascii_of_N 10.

(** [x in items] *)
Definition member (x : str) (items : list str) : bool := existsb (str_eqb x) items.

(** [str(n)] for an integer. *)
Definition str_of_int (n : Z) : str := py (NilZero.string_of_int (Z.to_int n)).

(** The [%0wd] conversion of a number that is not negative. *)
Definition zero_padded (width : nat) (n : Z) : str :=
  let digits := str_of_int n in
  repeat "0"%char (width - List.length digits) ++ digits.

(** [dt.strftime("%H:%M")] *)
Definition strftime_HM (dt : datetime) : str :=
  zero_padded 2 (datetime_hour dt) ++ py ":" ++ zero_padded 2 (datetime_minute dt).

(** The year, month and day of a [date], as CPython's [_ord2ymd] computes
    them from the days since 0001-01-01. *)
Definition days_before_month (month : Z) : Z :=
  nth (Z.to_nat month) [0; 0; 31; 59; 90; 120; 151; 181; 212; 243; 273; 304; 334] 0.
Definition days_in_month (month : Z) : Z :=
  nth (Z.to_nat month) [0; 31; 28; 31; 30; 31; 30; 31; 31; 30; 31; 30; 31] 0.

Definition ord2ymd (d : date) : Z * Z * Z :=
  let n400 := d / 146097 in
  let n := d mod 146097 in
  let n100 := n / 36524 in
  let n := n mod 36524 in
  let n4 := n / 1461 in
  let n := n mod 1461 in
  let n1 := n / 365 in
  let n := n mod 365 in
  let year := n400 * 400 + 1 + n100 * 100 + n4 * 4 + n1 in
  if (n1 =? 4) || (n100 =? 4) then (year - 1, 12, 31)
  else
    let leapyear := (n1 =? 3) && (negb (n4 =? 24) || (n100 =? 3)) in
    let month := (n + 50) / 32 in
    let preceding :=
      days_before_month month + (if (2 <? month) && leapyear then 1 else 0) in
    if n <? preceding then
      let month' := month - 1 in
      let preceding' :=
        preceding - (days_in_month month' + (if (month' =? 2) && leapyear then 1 else 0)) in
      (year, month', n - preceding' + 1)
    else (year, month, n - preceding + 1).

(** [d.isoformat()], which is also [str(d)] *)
Definition isoformat (d : date) : str :=
  let '(y, m, dd) := ord2ymd d in
  zero_padded 4 y ++ py "-" ++ zero_padded 2 m ++ py "-" ++ zero_padded 2 dd.

(** ** story_generator.py *)

Module StoryGenerator.
Import Timeline.

Definition _FORBIDDEN_HEALTH_TERMS : list str :=
  [ py "heart rate"; py "hr"; py "bpm"; py "beats per minute";
    py "steps"; py "step count"; py "stress" ].

(** [\b~?\s*\d+\s*bpm\b] *)
Definition bpm_pattern : Re.regex :=
  [ Re.Boundary; Re.Opt (Re.is_char "~"); Re.Rep 0 Re.isspace;
    Re.Rep 1 Re.isdigit; Re.Rep 0 Re.isspace ]
  ++ Re.literal_i (py "bpm") ++ [ Re.Boundary ].

(** [\b\d+\s*steps\b] *)
Definition steps_pattern : Re.regex :=
  [ Re.Boundary; Re.Rep 1 Re.isdigit; Re.Rep 0 Re.isspace ]
  ++ Re.literal_i (py "steps") ++ [ Re.Boundary ].

(** [vital signs[^\.!?]*[\.!?]?] *)
Definition sentence_end (c : ascii) : bool :=
  Re.is_char "." c || Re.is_char "!" c || Re.is_char "?" c.

Definition vital_signs_pattern : Re.regex :=
  Re.literal_i (py "vital signs")
  ++ [ Re.Rep 0 (fun c => negb (sentence_end c)); Re.Opt sentence_end ].

(** [\s{2,}] *)
Definition spaces_pattern : Re.regex := [ Re.Rep 2 Re.isspace ].

(** One turn of the loop over the forbidden terms; the state is [text] and
    [lowered]. *)
Definition remove_term (st : str * str) (term : str) : str * str :=
  let '(text, lowered) := st in
  if contains term lowered then
    let text' := Re.sub (Re.literal_i term) [] text in
    (text', Re.lower text')
  else (text, lowered).

Definition _sanitize_text (text : str) : str :=
  match text with
  | [] => text
  | _ =>
      let text := Re.sub bpm_pattern [] text in
      let text := Re.sub steps_pattern [] text in
      let text := Re.sub vital_signs_pattern [] text in
      let lowered := Re.lower text in
      let '(text, _) := fold_left remove_term _FORBIDDEN_HEALTH_TERMS (text, lowered) in
      let text := Re.sub spaces_pattern (py " ") text in
      strip text
  end.

Definition _time_period (dt : datetime) : str :=
  let h := datetime_hour dt in
  if h <? 12 then py "in the morning"
  else if h <? 17 then py "in the afternoon"
  else py "in the evening".

Definition STOP_WORDS : list str :=
  [ py "low"; py "medium"; py "high"; py "normal"; py "~" ].

(** [[|,;/]] *)
Definition title_separator (c : ascii) : bool :=
  Re.is_char "|" c || Re.is_char "," c || Re.is_char ";" c || Re.is_char "/" c.

(** The tests a stripped segment of a title passes to be kept. *)
Definition keep_segment (seg : str) : bool :=
  let low := Re.lower seg in
  if negb (truthy seg) then false
  else if member low STOP_WORDS then false
  else if existsb (fun k => contains k low)
            [ py "bpm"; py "hr "; py "hr~"; py "stress"; py "steps" ] then false
  else if existsb Re.isdigit seg then false
  else if negb (existsb Re.isalpha seg) || (List.length seg <? 3)%nat then false
  else true.

Definition title_segments (t : str) : list str :=
  let t := _sanitize_text t in
  filter keep_segment (map strip (Re.split title_separator t)).

(** The loop that appends a segment when it is not yet in the list. *)
Definition append_if_new (unique_segments : list str) (s : str) : list str :=
  if member s unique_segments then unique_segments else unique_segments ++ [s].

Definition _clean_titles_for_story (raw_titles : list str) : str :=
  let segments := flat_map title_segments raw_titles in
  match segments with
  | [] => []
  | _ =>
      let unique_segments := fold_left append_if_new segments [] in
      join (py ", ") (firstn 3 unique_segments)
  end.

Definition moment_sentence (s : SessionSummary) : str :=
  let period := _time_period (start s) in
  let start_t := strftime_HM (start s) in
  let end_t := strftime_HM (end_ s) in
  let locs := match locations s with [] => [] | _ => join (py ", ") (locations s) end in
  let loc_phrase := if truthy locs then py " at " ++ locs else py " in a familiar place" in
  let people := match people_ s with [] => [] | _ => join (py ", ") (people_ s) end in
  let people_phrase := if truthy people then py " with " ++ people else [] in
  let titles_str := _clean_titles_for_story (titles s) in
  let act_phrase :=
    if truthy titles_str then py " while focusing on " ++ Re.lower titles_str else [] in
  py "During one moment " ++ period ++ py ", between " ++ start_t ++ py " and "
    ++ end_t ++ py ", you spent time" ++ loc_phrase ++ people_phrase ++ act_phrase
    ++ py ".".

(** The loop over [enumerate(session_summaries, start=1)], left by [break]
    once [i >= 4]. *)
Fixpoint moment_sentences (i : Z) (session_summaries : list SessionSummary)
  : list str :=
  match session_summaries with
  | [] => []
  | s :: rest =>
      moment_sentence s :: (if 4 <=? i then [] else moment_sentences (i + 1) rest)
  end.

Definition _fallback_narrative (session_summaries : list SessionSummary)
    (target_date_str : str) : str :=
  match session_summaries with
  | [] =>
      py "Only a few small moments were recorded on " ++ target_date_str
        ++ py ", but it was still your day, shaped by your own rhythm and choices."
  | _ =>
      let intro :=
        py "On " ++ target_date_str
          ++ py ", a few key moments from your day were recorded." in
      let body := join (py " ") (moment_sentences 1 session_summaries) in
      let closing :=
        py "Even though these notes do not capture every detail, they still trace a gentle outline of how you moved through your day." in
      intro ++ py " " ++ body ++ [newline; newline] ++ closing
  end.

(** [any(word in low for word in words)] *)
Definition any_in (words : list str) (low : str) : bool :=
  existsb (fun word => contains word low) words.

Definition title_flag (words : list str) (session_summaries : list SessionSummary) : bool :=
  existsb (fun s => existsb (fun t => any_in words (Re.lower t)) (titles s))
    session_summaries.

(** [_unique]: one turn of its loop, on the state [seen], [out]. *)
Definition unique_step (st : list str * list str) (x : str) : list str * list str :=
  let '(seen, out) := st in
  if truthy x && negb (member x seen) then (x :: seen, out ++ [x]) else st.

Definition _unique (items : list str) : list str :=
  snd (fold_left unique_step items ([], [])).

(** The bullets before the final pass. *)
Definition caregiver_bullets (session_summaries : list SessionSummary) : list str :=
  let num_sessions := Z.of_nat (List.length session_summaries) in
  let all_locations := flat_map locations session_summaries in
  let all_people := flat_map people_ session_summaries in
  let has_health :=
    title_flag [ py "health"; py "doctor"; py "clinic"; py "hospital";
                 py "appointment"; py "check" ] session_summaries in
  let has_messages :=
    title_flag [ py "message"; py "whatsapp"; py "text" ] session_summaries in
  let has_calls := title_flag [ py "call" ] session_summaries in
  let locs_unique := _unique all_locations in
  let people_unique := _unique all_people in
  let comms_parts :=
    (if has_calls then [ py "phone calls" ] else [])
    ++ (if has_messages then [ py "messages" ] else []) in
  [ py "- There were " ++ str_of_int num_sessions
      ++ py " recorded activity periods today." ]
  ++ match locs_unique with
     | [] => []
     | _ => [ py "- Activities took place at locations such as "
                ++ join (py ", ") (firstn 4 locs_unique) ++ py "." ]
     end
  ++ match people_unique with
     | [] => []
     | _ => [ py "- Time was spent with "
                ++ join (py ", ") (firstn 4 people_unique) ++ py "." ]
     end
  ++ match comms_parts with
     | [] => []
     | _ => [ py "- The log for this day includes "
                ++ join (py " and ") comms_parts ++ py " with others." ]
     end
  ++ (if has_health
      then [ py "- Some entries relate to health checks or appointments earlier in the day (without detailed measurements)." ]
      else [])
  ++ [ py "- Continue gentle check-ins according to the usual routine." ].

Definition _rule_based_caregiver_summary (session_summaries : list SessionSummary)
  : str :=
  match session_summaries with
  | [] =>
      py "- No specific activities were recorded for this day." ++ [newline]
        ++ py "- Continue gentle check-ins as usual."
  | _ =>
      let bullets := caregiver_bullets session_summaries in
      let bullets := map _sanitize_text bullets in
      join [newline] bullets
  end.

Record Story : Type := mkStory {
  memory_story : str;
  caregiver_summary : str
}.

Definition generate_ai_story_with_ollama (session_summaries : list SessionSummary)
    (target_date_str : str) : Story :=
  let memory_story := _fallback_narrative session_summaries target_date_str in
  let caregiver_summary := _rule_based_caregiver_summary session_summaries in
  mkStory memory_story caregiver_summary.

(** The legacy helper: the stripped text and an empty second section. *)
Definition split_story_sections (ai_text : str) : str * str :=
  (strip ai_text, []).

End StoryGenerator.

(** ** main_memory_engine.py *)

Module Engine.
Import Timeline.

Record DayResult : Type := mkDayResult {
  target_date : date;
  total_events : Z;
  num_sessions : Z;
  memory_story : str;
  caregiver_summary : str;
  per_source_counts : list (str * Z)
}.

(** A list comprehension whose element expression may raise. *)
Fixpoint map_result {A B} (f : A -> result B) (l : list A) : result (list B) :=
  match l with
  | [] => Ok []
  | x :: rest => y <- f x ;; ys <- map_result f rest ;; Ok (y :: ys)
  end.

Definition len {A} (l : list A) : Z := Z.of_nat (List.length l).

(** The events that the loaders read, by source, in the order of the
    dictionary [events_by_source]. *)
Definition sources : Type := list (str * list Event).

Definition source_counts (events_by_source : sources) : list (str * Z) :=
  map (fun kv => (fst kv, len (snd kv))) events_by_source.

Section Pipeline.
(** The three stages that follow the day filter.  They are parameters of
    the pipeline here, and the functions of [timeline.py] and
    [story_generator.py] in [run_engine_for_date] and [main] below. *)
Variable grouper : list Event -> Z -> result (list (list Event)).
Variable summarizer : list Event -> result SessionSummary.
Variable story_generator : list SessionSummary -> str -> StoryGenerator.Story.

(** [run_engine_for_date] from the loaded events on. *)
Definition run_pipeline (events_by_source : sources) (target_date : date)
    (gap_minutes : Z) : result DayResult :=
  let all_events := flat_map snd events_by_source in
  let day_events := filter_events_for_day all_events target_date in
  match day_events with
  | [] =>
      Ok (mkDayResult target_date 0 0
            (py "No events were found for " ++ isoformat target_date
               ++ py ". There is nothing to reconstruct for this day.")
            (py "- No specific activities were recorded for this date."
               ++ [newline]
               ++ py "- Continue gentle check-ins according to the usual routine.")
            (source_counts events_by_source))
  | _ =>
      sessions <- grouper day_events gap_minutes ;;
      summaries <- map_result summarizer sessions ;;
      let result := story_generator summaries (isoformat target_date) in
      Ok (mkDayResult target_date (len day_events) (len sessions)
            (StoryGenerator.memory_story result)
            (StoryGenerator.caregiver_summary result)
            (source_counts events_by_source))
  end.

(** [main] from the loaded events on: the arguments of the calls of
    [print], in order, and how the run ended. *)
Definition print_pipeline (events_by_source : sources) (target_date : date)
    (data_dir : str) (gap_minutes : Z) : list str * result unit :=
  let data_dir := rstrip_chars (py "/\") data_dir in
  let loading :=
    [ py "Loading events for " ++ isoformat target_date ++ py " from '"
        ++ data_dir ++ py "'..." ++ [newline] ] in
  let counts :=
    map (fun kv => fst kv ++ py " events: " ++ str_of_int (snd kv))
      (source_counts events_by_source) in
  let total_events := fold_left Z.add (map snd (source_counts events_by_source)) 0 in
  let all_events := flat_map snd events_by_source in
  let day_events := filter_events_for_day all_events target_date in
  let printed :=
    loading ++ counts
    ++ [ [newline] ++ py "Total events loaded (all days): " ++ str_of_int total_events;
         py "Total events on " ++ isoformat target_date ++ py ": "
           ++ str_of_int (len day_events) ] in
  match day_events with
  | [] =>
      (printed ++
         [ [newline]
             ++ py "No events found for this date. Nothing to send to the story generator." ],
       Ok tt)
  | _ =>
      match grouper day_events gap_minutes with
      | Raise e => (printed, Raise e)
      | Ok sessions =>
          let printed :=
            printed ++ [ py "Number of sessions: " ++ str_of_int (len sessions)
                           ++ [newline] ] in
          match map_result summarizer sessions with
          | Raise e => (printed, Raise e)
          | Ok summaries =>
              let result := story_generator summaries (isoformat target_date) in
              (printed ++
                 [ [newline] ++ py "=== MEMORY STORY (AI) ===" ++ [newline];
                   StoryGenerator.memory_story result;
                   [newline] ++ py "=== CAREGIVER SUMMARY (AI) ===" ++ [newline];
                   StoryGenerator.caregiver_summary result ],
               Ok tt)
          end
      end
  end.
End Pipeline.

Section EntryPoints.
Variable set_iter : list str -> list str.

Definition run_engine_for_date (events_by_source : sources) (target_date : date)
    (gap_minutes : Z) : result DayResult :=
  run_pipeline group_into_sessions (summarize_session set_iter)
    StoryGenerator.generate_ai_story_with_ollama
    events_by_source target_date gap_minutes.

Definition main (events_by_source : sources) (target_date : date)
    (data_dir : str) (gap_minutes : Z) : list str * result unit :=
  print_pipeline group_into_sessions (summarize_session set_iter)
    StoryGenerator.generate_ai_story_with_ollama
    events_by_source target_date data_dir gap_minutes.
End EntryPoints.

End Engine.

(** ** Notions used to state the properties *)

Module Props.
Import Timeline.

(** [a] and [b] are neighbours in [l], [a] first. *)
Definition adjacent {A} (a b : A) (l : list A) : Prop :=
exists l1 l2, l = l1 ++ a :: b :: l2.

(** The gap the grouper measures: from the start of [a] to the start of [b]. *)
Definition gap_between (a b : Event) : timedelta :=
timestamp_start b - timestamp_start a.

(** Ascending order of a key. *)
Definition key_le {A} (key : A -> Z) (x y : A) : Prop := key x <= key y.

Definition time_sorted (events : list Event) : Prop :=
Sorted (key_le timestamp_start) events.

(** [gap_minutes] is a duration: [timedelta(minutes=gap_minutes)] exists. *)
Definition is_duration (gap_minutes : Z) : Prop :=
- max_timedelta_days * 1440 <= gap_minutes < (max_timedelta_days + 1) * 1440.

(** The scan of [group_into_sessions] as a recursive function of the events,
  for a threshold already turned into a [timedelta]. *)
Definition push (a : Event) (ss : list (list Event)) : list (list Event) :=
match ss with
| s :: ss' => (a :: s) :: ss'
| [] => [[a]]
end.

Fixpoint sessions_of (limit : timedelta) (events : list Event) : list (list Event) :=
match events with
| [] => []
| a :: rest =>
    match rest with
    | [] => [[a]]
    | b :: _ =>
        if gap_between a b <=? limit
        then push a (sessions_of limit rest)
        else [a] :: sessions_of limit rest
    end
end.

(** The sessions once the events of the session being built are put in
  front of the first one. *)
Definition glue (current : list Event) (ss : list (list Event)) : list (list Event) :=
match ss with
| s :: ss' => (current ++ s) :: ss'
| [] => [current]
end.

(** In [sessions], the event [b] that follows the events [before] is the
  first of a session. *)
Definition begins_session (sessions : list (list Event)) (before : list Event)
  (b : Event) : Prop :=
exists ss1 s2 ss2, sessions = ss1 ++ (b :: s2) :: ss2 /\ concat ss1 = before.

(** In [sessions], the neighbours [a], [b] that follow the events [before]
  are in one session. *)
Definition same_session (sessions : list (list Event)) (before : list Event)
  (a b : Event) : Prop :=
exists ss1 l1 l2 ss2,
  sessions = ss1 ++ (l1 ++ a :: b :: l2) :: ss2 /\ concat ss1 ++ l1 = before.

Definition on_day (d : date) (e : Event) : bool :=
datetime_date (timestamp_start e) =? d.

Definition starts_at (t : datetime) (e : Event) : bool :=
timestamp_start e =? t.

(** An event that carries only a start time and a place. *)
Definition event_at (t : datetime) (place : option str) : Event :=
mkEvent [] t None [] [] [] [] place.

(** A time of day on 2025-01-01. *)
Definition at_time (h m : Z) : datetime :=
739251 * us_per_day + h * us_per_hour + m * us_per_minute.

(** Three events that start at 09:00, 09:30 and 11:30, at the places
  [Home], [Home] and [Clinic]. *)
Definition morning_events : list Event :=
[ event_at (at_time 9 0) (Some (py "Home"));
  event_at (at_time 9 30) (Some (py "Home"));
  event_at (at_time 11 30) (Some (py "Clinic")) ].

(** A listing of sets in which the element seen last comes first.  With
  hash seed 0, CPython 3.11 lists the set of [Home] and [Clinic] in this
  order. *)
Definition last_seen_first (l : list str) : list str := rev (first_seen l).

(** The messages of a day without events. *)
Definition no_events_story (target_date : date) : str :=
py "No events were found for " ++ isoformat target_date
  ++ py ". There is nothing to reconstruct for this day.".

Definition no_events_line : str :=
[newline] ++ py "No events found for this date. Nothing to send to the story generator.".

(** The sanitizer up to its last two steps: the three substitutions and the
  loop over the forbidden terms. *)
Definition scrub (text : str) : str :=
let text := Re.sub StoryGenerator.bpm_pattern [] text in
let text := Re.sub StoryGenerator.steps_pattern [] text in
let text := Re.sub StoryGenerator.vital_signs_pattern [] text in
fst (fold_left StoryGenerator.remove_term StoryGenerator._FORBIDDEN_HEALTH_TERMS
       (text, Re.lower text)).

(** None of the sensitive-measurement patterns occurs in [text]: no match of
  the three regular expressions and no forbidden term in the lowered text. *)
Definition pattern_free (text : str) : bool :=
negb (Re.search StoryGenerator.bpm_pattern text)
&& negb (Re.search StoryGenerator.steps_pattern text)
&& negb (Re.search StoryGenerator.vital_signs_pattern text)
&& forallb (fun term => negb (contains term (Re.lower text)))
     StoryGenerator._FORBIDDEN_HEALTH_TERMS.

(** No two whitespace characters are neighbours. *)
Fixpoint spaced_once (s : str) : bool :=
match s with
| c1 :: s' =>
    match s' with
    | c2 :: _ => negb (Re.isspace c1 && Re.isspace c2) && spaced_once s'
    | [] => true
    end
| [] => true
end.

(** The text does not begin with whitespace. *)
Definition head_not_space (s : str) : bool :=
match s with
| c :: _ => negb (Re.isspace c)
| [] => true
end.

(** A summary of one session from 09:00 to 09:30 at the given places. *)
Definition summary_at (places : list str) : SessionSummary :=
mkSummary (at_time 9 0) (at_time 9 30) places [] [] [].

(** The number of places in [events] where an event starts more than
    [limit] after the event before it. *)
Fixpoint boundaries (limit : timedelta) (events : list Event) : nat :=
  match events with
  | [] => O
  | a :: rest =>
      match rest with
      | [] => O
      | b :: _ =>
          if gap_between a b <=? limit
          then boundaries limit rest
          else S (boundaries limit rest)
      end
  end.

(** The event, when it has an end, does not end before it starts. *)
Definition ends_after_start (e : Event) : Prop :=
  forall t, timestamp_end e = Some t -> timestamp_start e <= t.

End Props.

(** * Properties *)

Import Timeline Props.

(** ** Strings and lists *)

Lemma str_eqb_eq (a b : str) : str_eqb a b = true <-> a = b.
Proof.
unfold str_eqb. destruct (list_eq_dec ascii_dec a b); split; congruence.
Qed.

Lemma str_eqb_refl (a : str) : str_eqb a a = true.
Proof. now apply str_eqb_eq. Qed.

Lemma str_eqb_neq (a b : str) : str_eqb a b = false <-> a <> b.
Proof.
unfold str_eqb. destruct (list_eq_dec ascii_dec a b); split; congruence.
Qed.

Lemma adjacent_nil {A} (a b : A) : ~ adjacent a b [].
Proof. intros [l1 [l2 H]]. destruct l1; discriminate. Qed.

Lemma adjacent_one {A} (a b x : A) : ~ adjacent a b [x].
Proof. intros [l1 [l2 H]]. destruct l1 as [|? [|? ?]]; discriminate. Qed.

Lemma adjacent_cons_inv {A} (a b x : A) (l : list A) :
adjacent a b (x :: l) -> (a = x /\ exists l2, l = b :: l2) \/ adjacent a b l.
Proof.
intros [l1 [l2 H]]. destruct l1 as [|y l1]; simpl in H; inversion H; subst.
- left. eauto.
- right. exists l1, l2. reflexivity.
Qed.

Lemma adjacent_cons {A} (a b x : A) (l : list A) :
adjacent a b l -> adjacent a b (x :: l).
Proof. intros [l1 [l2 H]]. exists (x :: l1), l2. now subst. Qed.

(** ** The session grouper *)

Section Grouper.
Variable gap_minutes : Z.
Variable limit : timedelta.
Hypothesis limit_ok : timedelta_minutes gap_minutes = Ok limit.

Lemma session_step_ok (sessions : list (list Event)) (current : list Event)
    (prev curr : Event) :
  session_step gap_minutes (sessions, current) (prev, curr) =
  Ok (if gap_between prev curr <=? limit
      then (sessions, current ++ [curr])
      else (sessions ++ [current], [curr])).
Proof.
  unfold session_step, gap_between. rewrite limit_ok. simpl.
  now destruct (_ <=? _).
Qed.

Lemma sessions_of_head (a : Event) (rest : list Event) :
  exists s ss, sessions_of limit (a :: rest) = (a :: s) :: ss.
Proof.
  destruct rest as [|b rest]; simpl; [eauto|].
  destruct (_ <=? _); [|eauto].
  destruct (match rest with [] => _ | _ => _ end); simpl; eauto.
Qed.

(** The loop of the source computes [sessions_of]. *)
Lemma scan_sessions (rest : list Event) :
  forall (a : Event) (sessions : list (list Event)) (current : list Event),
  exists sessions' current',
    for_each (session_step gap_minutes) (combine (a :: rest) rest)
      (sessions, current ++ [a]) = Ok (sessions', current')
    /\ sessions' ++ [current'] = sessions ++ glue current (sessions_of limit (a :: rest)).
Proof.
  induction rest as [|b rest IH]; intros a sessions current.
  - exists sessions, (current ++ [a]). simpl. auto.
  - change (combine (a :: b :: rest) (b :: rest))
      with ((a, b) :: combine (b :: rest) rest).
    cbn [for_each]. rewrite session_step_ok. cbn [bind].
    change (sessions_of limit (a :: b :: rest))
      with (if gap_between a b <=? limit
            then push a (sessions_of limit (b :: rest))
            else [a] :: sessions_of limit (b :: rest)).
    destruct (gap_between a b <=? limit).
    + destruct (IH b sessions (current ++ [a])) as (s' & c' & Hrun & Heq).
      exists s', c'. split; [exact Hrun|]. rewrite Heq.
      destruct (sessions_of_head b rest) as (s & ss & Hs). rewrite Hs.
      simpl. now rewrite <- app_assoc.
    + destruct (IH b (sessions ++ [current ++ [a]]) []) as (s' & c' & Hrun & Heq).
      exists s', c'. split; [exact Hrun|]. rewrite Heq.
      destruct (sessions_of_head b rest) as (s & ss & Hs). rewrite Hs.
      simpl. now rewrite <- app_assoc.
Qed.

Lemma group_into_sessions_sessions_of (events : list Event) :
  group_into_sessions events gap_minutes = Ok (sessions_of limit events).
Proof.
  destruct events as [|a rest]; [reflexivity|].
  unfold group_into_sessions.
  destruct (scan_sessions rest a [] []) as (s' & c' & Hrun & Heq).
  simpl app in Hrun. rewrite Hrun. cbn [bind]. rewrite Heq.
  destruct (sessions_of_head a rest) as (s & ss & Hs). now rewrite Hs.
Qed.
End Grouper.

Lemma is_duration_timedelta (gap_minutes : Z) :
is_duration gap_minutes ->
timedelta_minutes gap_minutes = Ok (gap_minutes * us_per_minute).
Proof.
unfold is_duration, timedelta_minutes. intros H.
assert (- max_timedelta_days <= gap_minutes / 1440) as H1.
{ apply Z.div_le_lower_bound; unfold max_timedelta_days in *; lia. }
assert (gap_minutes / 1440 < max_timedelta_days + 1) as H2.
{ apply Z.div_lt_upper_bound; unfold max_timedelta_days in *; lia. }
apply Z.leb_le in H1. rewrite H1.
assert ((gap_minutes / 1440 <=? max_timedelta_days) = true) as H3
  by (apply Z.leb_le; lia).
now rewrite H3.
Qed.

Section SessionsOf.
Variable limit : timedelta.

Lemma sessions_of_concat (events : list Event) :
  concat (sessions_of limit events) = events.
Proof.
  induction events as [|a rest IH]; [reflexivity|].
  destruct rest as [|b rest]; [reflexivity|].
  change (sessions_of limit (a :: b :: rest))
    with (if gap_between a b <=? limit
          then push a (sessions_of limit (b :: rest))
          else [a] :: sessions_of limit (b :: rest)).
  destruct (sessions_of_head limit b rest) as (s & ss & Hs).
  rewrite Hs in *. destruct (_ <=? _); simpl in *; now rewrite IH.
Qed.

Lemma sessions_of_nonempty (events : list Event) :
  Forall (fun s => s <> []) (sessions_of limit events).
Proof.
  induction events as [|a rest IH]; [constructor|].
  destruct rest as [|b rest]; [repeat constructor; discriminate|].
  change (sessions_of limit (a :: b :: rest))
    with (if gap_between a b <=? limit
          then push a (sessions_of limit (b :: rest))
          else [a] :: sessions_of limit (b :: rest)).
  destruct (sessions_of_head limit b rest) as (s & ss & Hs).
  rewrite Hs in *. inversion IH; subst.
  destruct (_ <=? _); simpl; repeat constructor; auto; discriminate.
Qed.

(** Neighbours inside a session are within the threshold. *)
Lemma sessions_of_within (events : list Event) :
  forall s x y, In s (sessions_of limit events) -> adjacent x y s ->
                gap_between x y <= limit.
Proof.
  induction events as [|a rest IH]; intros s x y Hin Hadj; [destruct Hin|].
  destruct rest as [|b rest].
  - destruct Hin as [<-|[]]. now apply adjacent_one in Hadj.
  - change (sessions_of limit (a :: b :: rest))
      with (if gap_between a b <=? limit
            then push a (sessions_of limit (b :: rest))
            else [a] :: sessions_of limit (b :: rest)) in Hin.
    destruct (sessions_of_head limit b rest) as (s0 & ss & Hs).
    rewrite Hs in *.
    destruct (gap_between a b <=? limit) eqn:Hgap; simpl in Hin.
    + destruct Hin as [<-|Hin].
      * apply adjacent_cons_inv in Hadj as [[-> [l2 Hl2]]|Hadj].
        -- inversion Hl2; subst. now apply Z.leb_le.
        -- apply (IH (b :: s0)); [now left|exact Hadj].
      * apply (IH s); [now right|exact Hadj].
    + destruct Hin as [<-|Hin].
      * now apply adjacent_one in Hadj.
      * now apply (IH s).
Qed.

(** Where one session ends and the next begins the gap exceeds the
    threshold. *)
Lemma sessions_of_across (events : list Event) :
  forall s1 s2, adjacent s1 s2 (sessions_of limit events) ->
  exists l1 x y l2, s1 = l1 ++ [x] /\ s2 = y :: l2 /\ gap_between x y > limit.
Proof.
  induction events as [|a rest IH]; intros s1 s2 Hadj;
    [now apply adjacent_nil in Hadj|].
  destruct rest as [|b rest]; [now apply adjacent_one in Hadj|].
  change (sessions_of limit (a :: b :: rest))
    with (if gap_between a b <=? limit
          then push a (sessions_of limit (b :: rest))
          else [a] :: sessions_of limit (b :: rest)) in Hadj.
  destruct (sessions_of_head limit b rest) as (s0 & ss & Hs).
  rewrite Hs in *.
  destruct (gap_between a b <=? limit) eqn:Hgap; simpl in Hadj.
  - apply adjacent_cons_inv in Hadj as [[-> [l2 Hl2]]|Hadj].
    + destruct (IH (b :: s0) s2) as (l1 & x & y & l3 & H1 & H2 & H3).
      { exists [], l2. now rewrite Hl2. }
      exists (a :: l1), x, y, l3. simpl. now rewrite <- H1.
    + apply IH. now apply adjacent_cons.
  - apply adjacent_cons_inv in Hadj as [[-> [l2 Hl2]]|Hadj].
    + inversion Hl2; subst. exists [], a, b, s0.
      apply Z.leb_gt in Hgap. repeat split; auto. lia.
    + now apply IH.
Qed.
End SessionsOf.

Section SessionPositions.
Variable limit : timedelta.
Variables a b : Event.
Variable suf : list Event.

Lemma sessions_of_cons (p q : Event) (r : list Event) :
  sessions_of limit (p :: q :: r) =
  if gap_between p q <=? limit
  then push p (sessions_of limit (q :: r))
  else [p] :: sessions_of limit (q :: r).
Proof. reflexivity. Qed.

Lemma sessions_of_merged (pre : list Event) :
  gap_between a b <= limit ->
  same_session (sessions_of limit (pre ++ a :: b :: suf)) pre a b.
Proof.
  intros Hgap. induction pre as [|p pre IH].
  - simpl app. rewrite sessions_of_cons.
    apply Z.leb_le in Hgap. rewrite Hgap.
    destruct (sessions_of_head limit b suf) as (s0 & ss & Hs). rewrite Hs.
    exists [], [], s0, ss. auto.
  - destruct IH as (ss1 & l1 & l2 & ss2 & Hs & Hpre).
    change ((p :: pre) ++ a :: b :: suf) with (p :: (pre ++ a :: b :: suf)).
    destruct (pre ++ a :: b :: suf) as [|q r] eqn:E;
      [destruct pre; discriminate|].
    rewrite sessions_of_cons, Hs.
    destruct (gap_between p q <=? limit).
    + destruct ss1 as [|t ss1]; simpl in *.
      * exists [], (p :: l1), l2, ss2. subst. auto.
      * exists ((p :: t) :: ss1), l1, l2, ss2. subst. auto.
    + exists ([p] :: ss1), l1, l2, ss2. subst. auto.
Qed.

Lemma sessions_of_boundary (pre : list Event) :
  gap_between a b > limit ->
  begins_session (sessions_of limit (pre ++ a :: b :: suf)) (pre ++ [a]) b.
Proof.
  intros Hgap. induction pre as [|p pre IH].
  - simpl app. rewrite sessions_of_cons.
    assert ((gap_between a b <=? limit) = false) as -> by (apply Z.leb_gt; lia).
    destruct (sessions_of_head limit b suf) as (s0 & ss & Hs). rewrite Hs.
    exists [[a]], s0, ss. auto.
  - destruct IH as (ss1 & s2 & ss2 & Hs & Hpre).
    change ((p :: pre) ++ a :: b :: suf) with (p :: (pre ++ a :: b :: suf)).
    destruct (pre ++ a :: b :: suf) as [|q r] eqn:E;
      [destruct pre; discriminate|].
    rewrite sessions_of_cons, Hs.
    destruct (gap_between p q <=? limit).
    + destruct ss1 as [|t ss1]; simpl in *.
      * destruct pre; discriminate.
      * exists ((p :: t) :: ss1), s2, ss2. simpl. now rewrite Hpre.
    + exists ([p] :: ss1), s2, ss2. simpl. now rewrite Hpre.
Qed.
End SessionPositions.

Lemma time_sorted_adjacent (pre : list Event) (a b : Event) (suf : list Event) :
time_sorted (pre ++ a :: b :: suf) -> timestamp_start a <= timestamp_start b.
Proof.
unfold time_sorted. induction pre as [|p pre IH]; simpl; intros H.
- apply Sorted_inv in H as [_ H]. now inversion H.
- apply Sorted_inv in H as [H _]. auto.
Qed.

Lemma morning_events_sorted : time_sorted morning_events.
Proof. repeat constructor; vm_compute; discriminate. Qed.

(** C1. For a time-sorted, non-empty list of events and a threshold that is
  a duration, [group_into_sessions] returns sessions whose concatenation is
  the input list; two neighbours inside a session start at most the
  threshold apart; and the last event of a session and the first event of
  the next one start more than the threshold apart. *)
Theorem group_into_sessions_partition
  (events : list Event) (gap_minutes : Z) (limit : timedelta) :
events <> [] ->
time_sorted events ->
timedelta_minutes gap_minutes = Ok limit ->
exists sessions,
  group_into_sessions events gap_minutes = Ok sessions
  /\ concat sessions = events
  /\ (forall s x y, In s sessions -> adjacent x y s -> gap_between x y <= limit)
  /\ (forall s1 s2, adjacent s1 s2 sessions ->
      exists l1 x y l2,
        s1 = l1 ++ [x] /\ s2 = y :: l2 /\ gap_between x y > limit).
Proof.
intros _ _ Hlimit. exists (sessions_of limit events).
split; [now apply group_into_sessions_sessions_of|].
split; [apply sessions_of_concat|].
split; [apply sessions_of_within|apply sessions_of_across].
Qed.

Lemma group_into_sessions_partition_witness :
exists sessions,
  group_into_sessions morning_events 60 = Ok sessions
  /\ concat sessions = morning_events
  /\ (forall s x y, In s sessions -> adjacent x y s ->
      gap_between x y <= 60 * us_per_minute)
  /\ (forall s1 s2, adjacent s1 s2 sessions ->
      exists l1 x y l2,
        s1 = l1 ++ [x] /\ s2 = y :: l2 /\ gap_between x y > 60 * us_per_minute).
Proof.
apply (@group_into_sessions_partition morning_events 60 (60 * us_per_minute)).
- discriminate.
- exact morning_events_sorted.
- reflexivity.
Defined.

(** C10. For every list of events, sorted or not, and every threshold that is
  a duration, [group_into_sessions] returns sessions whose concatenation is
  the input list, and none of the sessions is empty. *)
Theorem group_into_sessions_conserves
  (events : list Event) (gap_minutes : Z) :
is_duration gap_minutes ->
exists sessions,
  group_into_sessions events gap_minutes = Ok sessions
  /\ concat sessions = events
  /\ Forall (fun s => s <> []) sessions.
Proof.
intros Hd. apply is_duration_timedelta in Hd.
exists (sessions_of (gap_minutes * us_per_minute) events).
split; [now apply group_into_sessions_sessions_of|].
split; [apply sessions_of_concat|apply sessions_of_nonempty].
Qed.

Lemma group_into_sessions_conserves_witness :
exists sessions,
  group_into_sessions (rev morning_events) 60 = Ok sessions
  /\ concat sessions = rev morning_events
  /\ Forall (fun s => s <> []) sessions.
Proof.
apply (@group_into_sessions_conserves (rev morning_events) 60).
unfold is_duration, max_timedelta_days. lia.
Defined.

(** C6. The edge cases of [group_into_sessions]: an empty list gives an empty
  list of sessions; one event gives one session that holds that event; and
  with a threshold of zero, on time-sorted events, an event that starts at
  another time than the event before it is the first of a session, while
  an event that starts at the same time as the event before it is in that
  event's session. *)
Theorem group_into_sessions_edge_cases :
(forall gap_minutes, group_into_sessions [] gap_minutes = Ok [])
/\ (forall e gap_minutes, group_into_sessions [e] gap_minutes = Ok [[e]])
/\ (forall events, time_sorted events ->
    exists sessions,
      group_into_sessions events 0 = Ok sessions
      /\ forall pre a b suf, events = pre ++ a :: b :: suf ->
         (timestamp_start b <> timestamp_start a ->
          begins_session sessions (pre ++ [a]) b)
         /\ (timestamp_start b = timestamp_start a ->
             same_session sessions pre a b)).
Proof.
split; [reflexivity|]. split; [reflexivity|].
intros events Hsorted. exists (sessions_of 0 events).
split; [now apply group_into_sessions_sessions_of|].
intros pre a b suf ->. apply time_sorted_adjacent in Hsorted. split; intros H.
- apply sessions_of_boundary. unfold gap_between. lia.
- apply sessions_of_merged. unfold gap_between. lia.
Qed.

Lemma group_into_sessions_edge_cases_witness :
exists sessions,
  group_into_sessions morning_events 0 = Ok sessions
  /\ forall pre a b suf, morning_events = pre ++ a :: b :: suf ->
     (timestamp_start b <> timestamp_start a ->
      begins_session sessions (pre ++ [a]) b)
     /\ (timestamp_start b = timestamp_start a ->
         same_session sessions pre a b).
Proof.
apply (proj2 (proj2 group_into_sessions_edge_cases) morning_events).
exact morning_events_sorted.
Defined.

(** ** The day filter *)

Section SortedFacts.
Variable A : Type.
Variable key : A -> Z.

Lemma insert_by_perm (x : A) (l : list A) :
  Permutation (insert_by key x l) (x :: l).
Proof.
  induction l as [|y l IH]; simpl; [reflexivity|].
  destruct (key x <=? key y); [reflexivity|].
  rewrite IH. apply perm_swap.
Qed.

Lemma sorted_perm (l : list A) : Permutation (sorted key l) l.
Proof.
  induction l as [|x l IH]; simpl; [reflexivity|].
  rewrite insert_by_perm. now constructor.
Qed.

Lemma insert_by_hd (x y : A) (l : list A) :
  key y <= key x -> HdRel (key_le key) y l -> HdRel (key_le key) y (insert_by key x l).
Proof.
  intros Hyx Hl. destruct l as [|z l]; simpl.
  - now constructor.
  - destruct (key x <=? key z); constructor; auto. now inversion Hl.
Qed.

Lemma insert_by_sorted (x : A) (l : list A) :
  Sorted (key_le key) l -> Sorted (key_le key) (insert_by key x l).
Proof.
  induction 1 as [|y l Hl IH Hhd]; simpl.
  - repeat constructor.
  - destruct (Z.leb_spec (key x) (key y)).
    + repeat constructor; auto.
    + constructor; [exact IH|]. apply insert_by_hd; [lia|exact Hhd].
Qed.

Lemma sorted_sorted (l : list A) : Sorted (key_le key) (sorted key l).
Proof.
  induction l as [|x l IH]; simpl; [constructor|].
  now apply insert_by_sorted.
Qed.

(** Insertion keeps the order among the elements of one key. *)
Lemma insert_by_stable (t : Z) (x : A) (l : list A) :
  filter (fun e => key e =? t) (insert_by key x l) =
  filter (fun e => key e =? t) (x :: l).
Proof.
  induction l as [|y l IH]; [reflexivity|].
  cbn [insert_by]. destruct (Z.leb_spec (key x) (key y)); [reflexivity|].
  cbn [filter] in *. rewrite IH.
  destruct (Z.eqb_spec (key x) t), (Z.eqb_spec (key y) t); try reflexivity.
  lia.
Qed.

Lemma sorted_stable (t : Z) (l : list A) :
  filter (fun e => key e =? t) (sorted key l) = filter (fun e => key e =? t) l.
Proof.
  induction l as [|x l IH]; [reflexivity|].
  cbn [sorted fold_right]. rewrite insert_by_stable.
  cbn [filter]. unfold sorted in IH. now rewrite IH.
Qed.
End SortedFacts.

(** C5. [filter_events_for_day] returns the events of the input that start
  on the target date, each as often as in the input, in ascending order of
  start; events that start at the same time keep the order they have in
  the input; the result is part of the input and has as many events as the
  input has on that date. *)
Theorem filter_events_for_day_spec (events : list Event) (target_date : date) :
let result := filter_events_for_day events target_date in
Permutation result (filter (on_day target_date) events)
/\ (forall e, In e result <->
              In e events /\ datetime_date (timestamp_start e) = target_date)
/\ time_sorted result
/\ (forall t, filter (starts_at t) result =
              filter (starts_at t) (filter (on_day target_date) events))
/\ incl result events
/\ List.length result = List.length (filter (on_day target_date) events).
Proof.
intros result.
assert (Permutation result (filter (on_day target_date) events)) as Hperm
  by apply sorted_perm.
assert (forall e, In e result <->
          In e events /\ datetime_date (timestamp_start e) = target_date) as Hin.
{ intros e. split.
  - intros H. apply (Permutation_in _ Hperm) in H.
    apply filter_In in H as [H1 H2]. split; [exact H1|].
    now apply Z.eqb_eq.
  - intros [H1 H2]. apply (Permutation_in _ (Permutation_sym Hperm)).
    apply filter_In. split; [exact H1|]. now apply Z.eqb_eq. }
repeat split.
- exact Hperm.
- now apply Hin.
- now apply Hin.
- intros [H1 H2]. now apply Hin.
- apply sorted_sorted.
- intros t. apply (sorted_stable timestamp_start).
- intros e H. now apply Hin in H.
- now apply Permutation_length.
Qed.

(** ** The session summarizer *)

Lemma first_seen_In (x : str) (l : list str) : In x (first_seen l) <-> In x l.
Proof.
induction l as [|y l IH]; simpl; [tauto|].
rewrite filter_In, IH. split.
- intros [H|[H _]]; auto.
- intros [H|H]; auto.
  destruct (list_eq_dec ascii_dec x y) as [->|Hne]; auto.
  right. split; [exact H|]. apply negb_true_iff. now apply str_eqb_neq.
Qed.

Lemma first_seen_NoDup (l : list str) : NoDup (first_seen l).
Proof.
induction l as [|y l IH]; simpl; constructor.
- rewrite filter_In. intros [_ H]. now rewrite str_eqb_refl in H.
- now apply NoDup_filter.
Qed.

Lemma first_seen_listing : set_listing first_seen.
Proof. intros l. split; [apply first_seen_NoDup|intros x; apply first_seen_In]. Qed.

Lemma last_seen_first_listing : set_listing last_seen_first.
Proof.
intros l. unfold last_seen_first. split.
- apply NoDup_rev, first_seen_NoDup.
- intros x. rewrite <- in_rev. apply first_seen_In.
Qed.

Lemma set_listing_perm (set_iter : list str -> list str) (l : list str) :
set_listing set_iter -> Permutation (set_iter l) (first_seen l).
Proof.
intros H. destruct (H l) as [Hnd Hin].
apply NoDup_Permutation; [exact Hnd|apply first_seen_NoDup|].
intros x. now rewrite Hin, first_seen_In.
Qed.

Lemma session_locations_In (x : str) (session : list Event) :
In x (session_locations session) <->
exists e, In e session /\ location e = Some x /\ x <> [].
Proof.
unfold session_locations. rewrite in_flat_map. split.
- intros (e & He & Hx). exists e. split; [exact He|].
  destruct (location e) as [s|]; [|destruct Hx].
  unfold truthy in Hx. destruct (str_eqb s []) eqn:E; simpl in Hx; [destruct Hx|].
  destruct Hx as [->|[]]. split; [reflexivity|]. now apply str_eqb_neq.
- intros (e & He & Hloc & Hne). exists e. split; [exact He|].
  rewrite Hloc. unfold truthy.
  apply str_eqb_neq in Hne. rewrite Hne. now left.
Qed.

Lemma session_people_In (p : str) (session : list Event) :
In p (session_people session) <-> exists e, In e session /\ In p (people e).
Proof. unfold session_people. apply in_flat_map. Qed.

(** C7. [summarize_session] raises [IndexError], the failure of indexing an
  empty list, on the empty session and on no other; on a non-empty session
  it returns a summary whose start is the start of the first event and
  whose end is the end of the last event when it has one, and the start of
  the last event otherwise. *)
Theorem summarize_session_errors (set_iter : list str -> list str) :
summarize_session set_iter [] = Raise IndexError
/\ (forall session e, summarize_session set_iter session = Raise e -> session = [])
/\ (forall first rest,
    let session := first :: rest in
    let last_event := last session first in
    exists summary,
      summarize_session set_iter session = Ok summary
      /\ start summary = timestamp_start first
      /\ end_ summary = match timestamp_end last_event with
                        | Some t => t
                        | None => timestamp_start last_event
                        end).
Proof.
split; [reflexivity|]. split.
- intros [|first rest] e H; [reflexivity|discriminate].
- intros first rest session last_event. eexists. split; [reflexivity|].
  split; reflexivity.
Qed.

(** C3, as the code has it.  For a non-empty session, the locations of the
  summary are the non-empty [location] fields of the events, each once, and
  the people are the [people] entries of the events, each once; both are
  rearrangements of the lists in order of first appearance, in an order
  that the listing of the set decides.  A session whose events carry the
  locations Home, Home, Clinic has a rearrangement of Home, Clinic as its
  locations. *)
Theorem summarize_session_sets (set_iter : list str -> list str)
  (session : list Event) :
set_listing set_iter ->
session <> [] ->
exists summary,
  summarize_session set_iter session = Ok summary
  /\ NoDup (locations summary)
  /\ (forall x, In x (locations summary) <->
                exists e, In e session /\ location e = Some x /\ x <> [])
  /\ Permutation (locations summary) (first_seen (session_locations session))
  /\ NoDup (people_ summary)
  /\ (forall p, In p (people_ summary) <->
                exists e, In e session /\ In p (people e))
  /\ Permutation (people_ summary) (first_seen (session_people session))
  /\ (session_locations session = [py "Home"; py "Home"; py "Clinic"] ->
      Permutation (locations summary) [py "Home"; py "Clinic"]).
Proof.
intros Hset Hne. destruct session as [|first rest]; [congruence|].
eexists. split; [reflexivity|]. cbn [locations people_].
destruct (Hset (session_locations (first :: rest))) as [Hnd1 Hin1].
destruct (Hset (session_people (first :: rest))) as [Hnd2 Hin2].
repeat split; auto.
- intros H. apply session_locations_In. now apply Hin1.
- intros H. apply Hin1. now apply session_locations_In.
- now apply set_listing_perm.
- intros H. apply session_people_In. now apply Hin2.
- intros H. apply Hin2. now apply session_people_In.
- now apply set_listing_perm.
- intros E. rewrite (set_listing_perm _ Hset), E. reflexivity.
Qed.

Lemma summarize_session_sets_witness :
exists summary,
  summarize_session first_seen morning_events = Ok summary
  /\ NoDup (locations summary)
  /\ (forall x, In x (locations summary) <->
                exists e, In e morning_events /\ location e = Some x /\ x <> [])
  /\ Permutation (locations summary) (first_seen (session_locations morning_events))
  /\ NoDup (people_ summary)
  /\ (forall p, In p (people_ summary) <->
                exists e, In e morning_events /\ In p (people e))
  /\ Permutation (people_ summary) (first_seen (session_people morning_events))
  /\ (session_locations morning_events = [py "Home"; py "Home"; py "Clinic"] ->
      Permutation (locations summary) [py "Home"; py "Clinic"]).
Proof.
apply (@summarize_session_sets first_seen morning_events).
- exact first_seen_listing.
- discriminate.
Defined.

(** C3, as the claim has it, fails: under a listing of sets that CPython
  gives, the session with the locations Home, Home, Clinic is summarized
  to the locations Clinic, Home, which is not the order of first
  appearance. *)
Lemma summarize_session_order_counterexample :
set_listing last_seen_first
/\ session_locations morning_events = [py "Home"; py "Home"; py "Clinic"]
/\ exists summary,
     summarize_session last_seen_first morning_events = Ok summary
     /\ locations summary = [py "Clinic"; py "Home"]
     /\ locations summary <> first_seen (session_locations morning_events)
     /\ locations summary <> [py "Home"; py "Clinic"].
Proof.
split; [exact last_seen_first_listing|]. split; [reflexivity|].
eexists. split; [reflexivity|]. split; [reflexivity|].
split; vm_compute; discriminate.
Qed.

(** ** The pipeline on a day without events *)

Lemma filter_nothing (events : list Event) (target_date : date) :
Forall (fun e => datetime_date (timestamp_start e) <> target_date) events ->
filter_events_for_day events target_date = [].
Proof.
intros H. unfold filter_events_for_day.
replace (filter _ events) with (@nil Event); [reflexivity|].
induction H as [|e l He _ IH]; [reflexivity|]. simpl.
apply Z.eqb_neq in He. now rewrite He.
Qed.

Lemma narrative_first_char (summaries : list SessionSummary) (date_str : str) :
exists rest, StoryGenerator._fallback_narrative summaries date_str = "O"%char :: rest.
Proof. destruct summaries; simpl; eauto. Qed.

(** C9. When no loaded event starts on the target date,
  [run_engine_for_date] returns a result with 0 events and 0 sessions whose
  story is the no-events message, which is not empty and is no narrative
  of the story generator; the result is the same whatever the grouper, the
  summarizer and the story generator are, so none of them takes part; and
  [main] ends normally with the no-events line printed last. *)
Theorem no_events_is_a_result
  (set_iter : list str -> list str)
  (events_by_source : Engine.sources) (target_date : date)
  (data_dir : str) (gap_minutes : Z) :
Forall (fun e => datetime_date (timestamp_start e) <> target_date)
  (flat_map snd events_by_source) ->
(exists r,
   Engine.run_engine_for_date set_iter events_by_source target_date gap_minutes = Ok r
   /\ Engine.total_events r = 0
   /\ Engine.num_sessions r = 0
   /\ Engine.memory_story r = no_events_story target_date
   /\ Engine.memory_story r <> []
   /\ (forall summaries date_str,
       Engine.memory_story r <> StoryGenerator._fallback_narrative summaries date_str)
   /\ forall grouper summarizer story_generator,
      Engine.run_pipeline grouper summarizer story_generator
        events_by_source target_date gap_minutes = Ok r)
/\ (exists printed,
    Engine.main set_iter events_by_source target_date data_dir gap_minutes
      = (printed ++ [no_events_line], Ok tt)
    /\ forall grouper summarizer story_generator,
       Engine.print_pipeline grouper summarizer story_generator
         events_by_source target_date data_dir gap_minutes
       = (printed ++ [no_events_line], Ok tt)).
Proof.
intros H. apply filter_nothing in H. split.
- eexists. unfold Engine.run_engine_for_date, Engine.run_pipeline.
  rewrite H. split; [reflexivity|]. cbn [Engine.total_events
    Engine.num_sessions Engine.memory_story].
  repeat split; try discriminate.
  intros summaries date_str E.
  destruct (narrative_first_char summaries date_str) as [rest Hrest].
  rewrite Hrest in E. discriminate.
- eexists. unfold Engine.main, Engine.print_pipeline.
  rewrite H. split; [reflexivity|]. reflexivity.
Qed.

Lemma no_events_is_a_result_witness :
(exists r,
   Engine.run_engine_for_date first_seen [(py "Calendar", morning_events)]
     739252 60 = Ok r
   /\ Engine.total_events r = 0
   /\ Engine.num_sessions r = 0
   /\ Engine.memory_story r = no_events_story 739252
   /\ Engine.memory_story r <> []
   /\ (forall summaries date_str,
       Engine.memory_story r <> StoryGenerator._fallback_narrative summaries date_str)
   /\ forall grouper summarizer story_generator,
      Engine.run_pipeline grouper summarizer story_generator
        [(py "Calendar", morning_events)] 739252 60 = Ok r)
/\ (exists printed,
    Engine.main first_seen [(py "Calendar", morning_events)] 739252 (py "data") 60
      = (printed ++ [no_events_line], Ok tt)
    /\ forall grouper summarizer story_generator,
       Engine.print_pipeline grouper summarizer story_generator
         [(py "Calendar", morning_events)] 739252 (py "data") 60
       = (printed ++ [no_events_line], Ok tt)).
Proof.
apply (@no_events_is_a_result first_seen [(py "Calendar", morning_events)]
         739252 (py "data") 60).
repeat constructor; vm_compute; discriminate.
Defined.

(** ** The sanitizer *)

Import StoryGenerator.

Section Substitution.
Variable r : Re.regex.
Variable repl : str.

(** Where the pattern has no match, substitution changes nothing. *)
Lemma sub_from_no_match (s : str) :
  forall prev, Re.search_from r prev s = false -> Re.sub_from r repl prev s 0 = s.
Proof.
  induction s as [|c s IH]; intros prev H; simpl in *.
  - destruct (Re.matches r prev []); [discriminate|reflexivity].
  - destruct (Re.matches r prev (c :: s)); [discriminate|].
    now rewrite IH.
Qed.

Lemma sub_no_match (s : str) : Re.search r s = false -> Re.sub r repl s = s.
Proof. apply sub_from_no_match. Qed.
End Substitution.

Lemma remove_term_absent (term text : str) :
contains term (Re.lower text) = false ->
remove_term (text, Re.lower text) term = (text, Re.lower text).
Proof. intros H. unfold remove_term. now rewrite H. Qed.

Lemma sanitize_scrub (text : str) :
_sanitize_text text = strip (Re.sub spaces_pattern (py " ") (scrub text)).
Proof.
destruct text as [|c text]; [reflexivity|].
unfold _sanitize_text, scrub.
destruct (fold_left remove_term _ _) as [t l]. reflexivity.
Qed.

Lemma scrub_pattern_free (text : str) : pattern_free text = true -> scrub text = text.
Proof.
unfold pattern_free, scrub. intros H.
apply andb_prop in H as [H Hterms]. apply andb_prop in H as [H Hvital].
apply andb_prop in H as [Hbpm Hsteps].
apply negb_true_iff in Hbpm, Hsteps, Hvital.
rewrite (sub_no_match _ _ _ Hbpm), (sub_no_match _ _ _ Hsteps),
  (sub_no_match _ _ _ Hvital).
unfold _FORBIDDEN_HEALTH_TERMS in *. cbn [forallb] in Hterms.
repeat (apply andb_prop in Hterms as [?H Hterms]).
repeat match goal with
       | H : negb _ = true |- _ => apply negb_true_iff in H
       end.
cbn [fold_left].
repeat (rewrite remove_term_absent by assumption).
reflexivity.
Qed.

(** *** Whitespace: [\s{2,}] and [strip] *)

Lemma drop_while_length (p : ascii -> bool) (s : str) :
(List.length (drop_while p s) <= List.length s)%nat.
Proof.
induction s as [|c s IH]; simpl; [lia|]. destruct (p c); simpl; lia.
Qed.

Lemma drop_while_head (s : str) : head_not_space (drop_while Re.isspace s) = true.
Proof.
induction s as [|c s IH]; simpl; [reflexivity|].
destruct (Re.isspace c) eqn:E; [exact IH|]. simpl. now rewrite E.
Qed.

Lemma drop_while_id (s : str) :
head_not_space s = true -> drop_while Re.isspace s = s.
Proof.
destruct s as [|c s]; simpl; [reflexivity|].
intros H. apply negb_true_iff in H. now rewrite H.
Qed.

Lemma drop_while_suffix (p : ascii -> bool) (s : str) :
exists l, s = l ++ drop_while p s.
Proof.
induction s as [|c s [l IH]]; simpl; [now exists []|].
destruct (p c); [|now exists []].
exists (c :: l). simpl. now rewrite <- IH.
Qed.

Lemma drop_while_snoc (c : ascii) (l : str) :
Re.isspace c = false ->
drop_while Re.isspace (l ++ [c]) = drop_while Re.isspace l ++ [c].
Proof.
intros Hc. induction l as [|x l IH]; simpl; [now rewrite Hc|].
now destruct (Re.isspace x).
Qed.

Lemma rep_all (p : ascii -> bool) (s : str) :
forall prev, Re.rep p (Re.matches []) 0 prev s = Some (drop_while p s).
Proof.
induction s as [|c s IH]; intros prev; simpl; [reflexivity|].
destruct (p c); [|reflexivity]. now rewrite IH.
Qed.

(** A match of [\s{2,}] takes the whole run of whitespace. *)
Lemma spaces_match (prev : option ascii) (s : str) :
Re.matches spaces_pattern prev s =
match s with
| c1 :: c2 :: s' =>
    if Re.isspace c1 && Re.isspace c2
    then Some (drop_while Re.isspace s') else None
| _ => None
end.
Proof.
unfold spaces_pattern. cbn [Re.matches].
destruct s as [|c1 [|c2 s']]; simpl; [reflexivity| |].
- now destruct (Re.isspace c1).
- destruct (Re.isspace c1); [|reflexivity].
  destruct (Re.isspace c2); [|reflexivity].
  simpl. now rewrite rep_all.
Qed.

Lemma sub_spaces_prev (repl : str) (prev prev' : option ascii) (s : str) (n : nat) :
Re.sub_from spaces_pattern repl prev s n = Re.sub_from spaces_pattern repl prev' s n.
Proof.
destruct s as [|c s]; cbn [Re.sub_from]; rewrite !spaces_match; [reflexivity|].
destruct n; reflexivity.
Qed.

(** Skipping the rest of a run of whitespace resumes after the run. *)
Lemma sub_spaces_skip (repl : str) (s : str) :
forall prev prev',
  Re.sub_from spaces_pattern repl prev s
    (List.length s - List.length (drop_while Re.isspace s))
  = Re.sub_from spaces_pattern repl prev' (drop_while Re.isspace s) 0.
Proof.
induction s as [|c s IH]; intros prev prev'.
- reflexivity.
- cbn [drop_while]. destruct (Re.isspace c).
  + pose proof (drop_while_length Re.isspace s) as Hlen.
    cbn [List.length]. rewrite Nat.sub_succ_l by exact Hlen.
    cbn [Re.sub_from]. apply IH.
  + rewrite Nat.sub_diag. apply sub_spaces_prev.
Qed.

Lemma spaced_once_before (c : ascii) (s : str) :
head_not_space s = true -> spaced_once s = true -> spaced_once (c :: s) = true.
Proof.
destruct s as [|d s]; [reflexivity|]. intros Hd Hs.
change (spaced_once (c :: d :: s))
  with (negb (Re.isspace c && Re.isspace d) && spaced_once (d :: s)).
simpl in Hd. apply negb_true_iff in Hd. now rewrite Hd, andb_false_r, Hs.
Qed.

Lemma spaced_once_after (c : ascii) (s : str) :
Re.isspace c = false -> spaced_once s = true -> spaced_once (c :: s) = true.
Proof.
destruct s as [|d s]; [reflexivity|]. intros Hc Hs.
change (spaced_once (c :: d :: s))
  with (negb (Re.isspace c && Re.isspace d) && spaced_once (d :: s)).
now rewrite Hc, Hs.
Qed.

Lemma sub_spaces_spaced_upto (n : nat) :
forall (s : str) (prev : option ascii),
  (List.length s <= n)%nat ->
  spaced_once (Re.sub_from spaces_pattern (py " ") prev s 0) = true
  /\ (head_not_space s = true ->
      head_not_space (Re.sub_from spaces_pattern (py " ") prev s 0) = true).
Proof.
induction n as [|n IH]; intros s prev Hlen.
- destruct s; [|simpl in Hlen; lia]. simpl. auto.
- destruct s as [|c1 s1]; [simpl; auto|].
  cbn [Re.sub_from]. rewrite spaces_match.
  destruct s1 as [|c2 s2].
  + simpl. auto.
  + destruct (Re.isspace c1) eqn:E1; cbn [andb].
    * destruct (Re.isspace c2) eqn:E2.
      -- pose proof (drop_while_length Re.isspace s2) as Hdw.
         cbn [List.length].
         rewrite !Nat.sub_succ_l by (simpl in *; lia).
         cbn [Re.sub_from].
         rewrite (sub_spaces_skip (py " ") s2 (Some c2) None).
         destruct (IH (drop_while Re.isspace s2) None) as [H1 H2];
           [simpl in Hlen; lia|].
         specialize (H2 (drop_while_head s2)).
         split; [|simpl; rewrite E1; discriminate].
         change (py " " ++ ?x) with (" "%char :: x).
         apply spaced_once_before; [exact H2|exact H1].
      -- destruct (IH (c2 :: s2) (Some c1)) as [H1 H2]; [simpl in *; lia|].
         assert (head_not_space (c2 :: s2) = true) as Hh
           by (simpl; now rewrite E2).
         specialize (H2 Hh).
         split; [|simpl; rewrite E1; discriminate].
         apply spaced_once_before; [exact H2|exact H1].
    * destruct (IH (c2 :: s2) (Some c1)) as [H1 _]; [simpl in *; lia|].
      split; [|simpl; now rewrite E1].
      apply spaced_once_after; [exact E1|exact H1].
Qed.

Lemma sub_spaces_spaced (s : str) :
spaced_once (Re.sub spaces_pattern (py " ") s) = true.
Proof. apply (@sub_spaces_spaced_upto (List.length s) s None (le_n _)). Qed.

Lemma spaced_once_app (l1 l2 : str) :
spaced_once (l1 ++ l2) = true -> spaced_once l1 = true /\ spaced_once l2 = true.
Proof.
induction l1 as [|c l1 IH]; [auto|].
destruct l1 as [|d l1].
- simpl. intros H. split; [reflexivity|].
  destruct l2; [reflexivity|]. now apply andb_prop in H.
- change ((c :: d :: l1) ++ l2) with (c :: d :: (l1 ++ l2)).
  cbn [spaced_once]. intros H. apply andb_prop in H as [Hcd H].
  destruct (IH H) as [H1 H2]. split; [|exact H2].
  rewrite Hcd. exact H1.
Qed.

Lemma spaced_once_no_match (s : str) :
spaced_once s = true -> forall prev, Re.search_from spaces_pattern prev s = false.
Proof.
induction s as [|c1 s IH]; intros H prev; cbn [Re.search_from];
  rewrite spaces_match; [reflexivity|].
destruct s as [|c2 s].
- cbn [Re.search_from]. now rewrite spaces_match.
- cbn [spaced_once] in H. apply andb_prop in H as [Hcc H].
  apply negb_true_iff in Hcc. rewrite Hcc. now apply IH.
Qed.

Lemma strip_infix (s : str) : exists l1 l2, s = l1 ++ strip s ++ l2.
Proof.
unfold strip, rstrip, lstrip.
destruct (drop_while_suffix Re.isspace s) as [l1 H1].
destruct (drop_while_suffix Re.isspace (rev (drop_while Re.isspace s))) as [l2 H2].
exists l1, (rev l2). rewrite <- rev_app_distr, <- H2, rev_involutive. exact H1.
Qed.

Lemma strip_spaced (s : str) : spaced_once s = true -> spaced_once (strip s) = true.
Proof.
intros H. destruct (strip_infix s) as (l1 & l2 & E). rewrite E in H.
apply spaced_once_app in H as [_ H]. now apply spaced_once_app in H as [H _].
Qed.

Lemma rstrip_head (s : str) :
head_not_space s = true -> head_not_space (rstrip s) = true.
Proof.
unfold rstrip. destruct s as [|c s]; [reflexivity|]. simpl. intros H.
apply negb_true_iff in H. rewrite (drop_while_snoc _ _ H), rev_app_distr.
simpl. now rewrite H.
Qed.

Lemma strip_head (s : str) : head_not_space (strip s) = true.
Proof. apply rstrip_head, drop_while_head. Qed.

Lemma strip_strip (s : str) : strip (strip s) = strip s.
Proof.
unfold strip at 1. unfold lstrip. rewrite (drop_while_id _ (strip_head s)).
unfold strip, rstrip. rewrite rev_involutive.
now rewrite (drop_while_id _ (drop_while_head _)).
Qed.

(** The result of the sanitizer has no whitespace at its ends and no two
  whitespace characters in a row. *)
Lemma sanitize_tidy (text : str) :
spaced_once (_sanitize_text text) = true
/\ strip (_sanitize_text text) = _sanitize_text text.
Proof.
rewrite sanitize_scrub. split.
- apply strip_spaced, sub_spaces_spaced.
- apply strip_strip.
Qed.

(** On a text without the patterns only the whitespace steps act, and on a
  tidy text they do nothing. *)
Lemma sanitize_pattern_free (text : str) :
pattern_free text = true ->
_sanitize_text text = strip (Re.sub spaces_pattern (py " ") text).
Proof. intros H. now rewrite sanitize_scrub, scrub_pattern_free. Qed.

Lemma sanitize_fixed (text : str) :
pattern_free text = true -> spaced_once text = true -> strip text = text ->
_sanitize_text text = text.
Proof.
intros Hfree Hsp Hstrip. rewrite sanitize_pattern_free by exact Hfree.
rewrite sub_no_match; [exact Hstrip|]. now apply spaced_once_no_match.
Qed.

(** C2, as the claim has it, fails: removing the term [hr] from [hhrr]
  brings its neighbours together into a new [hr], which only a second
  application removes. *)
Lemma sanitize_twice_counterexample :
_sanitize_text (py "hhrr") = py "hr"
/\ _sanitize_text (_sanitize_text (py "hhrr")) = []
/\ _sanitize_text (_sanitize_text (py "hhrr")) <> _sanitize_text (py "hhrr").
Proof.
split; [vm_compute; reflexivity|]. split; [vm_compute; reflexivity|].
vm_compute. discriminate.
Qed.

(** C2, as the code has it.  Applying the sanitizer to its own output
  changes nothing whenever that output holds none of the patterns. *)
Theorem sanitize_idempotent_when_clean (text : str) :
pattern_free (_sanitize_text text) = true ->
_sanitize_text (_sanitize_text text) = _sanitize_text text.
Proof.
intros H. destruct (sanitize_tidy text) as [Hsp Hstrip].
now apply sanitize_fixed.
Qed.

Lemma sanitize_idempotent_when_clean_witness :
_sanitize_text
  (_sanitize_text (py "Morning health check | HR ~65 bpm | 2500 steps | stress low"))
= _sanitize_text (py "Morning health check | HR ~65 bpm | 2500 steps | stress low").
Proof.
apply (@sanitize_idempotent_when_clean
         (py "Morning health check | HR ~65 bpm | 2500 steps | stress low")).
vm_compute. reflexivity.
Defined.

(** C8, as the claim has it, fails: a text without any of the patterns but
  with two spaces in a row comes back with one. *)
Lemma sanitize_unrelated_counterexample :
pattern_free (py "a  b") = true
/\ _sanitize_text (py "a  b") = py "a b"
/\ _sanitize_text (py "a  b") <> py "a  b".
Proof.
split; [vm_compute; reflexivity|]. split; [vm_compute; reflexivity|].
vm_compute. discriminate.
Qed.

(** C8, as the code has it.  On a text that holds none of the patterns the
  sanitizer does its whitespace steps only: each run of two or more
  whitespace characters becomes one space and the whitespace at the ends
  is stripped; a text that has neither is returned unchanged. *)
Theorem sanitize_unrelated (text : str) :
pattern_free text = true ->
_sanitize_text text = strip (Re.sub spaces_pattern (py " ") text)
/\ (spaced_once text = true -> strip text = text -> _sanitize_text text = text).
Proof.
intros H. split; [now apply sanitize_pattern_free|].
intros Hsp Hstrip. now apply sanitize_fixed.
Qed.

Lemma sanitize_unrelated_witness :
_sanitize_text (py "Lunch with Maria at the park")
= strip (Re.sub spaces_pattern (py " ") (py "Lunch with Maria at the park"))
/\ (spaced_once (py "Lunch with Maria at the park") = true ->
    strip (py "Lunch with Maria at the park") = py "Lunch with Maria at the park" ->
    _sanitize_text (py "Lunch with Maria at the park")
    = py "Lunch with Maria at the park").
Proof.
apply (@sanitize_unrelated (py "Lunch with Maria at the park")).
vm_compute. reflexivity.
Defined.

(** ** The report generator *)

Lemma paragraph_break_not_spaced (before after : str) :
spaced_once (before ++ [newline; newline] ++ after) = false.
Proof.
destruct (spaced_once (before ++ [newline; newline] ++ after)) eqn:E;
  [|reflexivity].
apply spaced_once_app in E as [_ E]. destruct after; discriminate.
Qed.

Lemma app_three (a b c t : str) : a ++ b ++ c ++ t = (a ++ b ++ c) ++ t.
Proof. now rewrite <- !app_assoc. Qed.

Lemma narrative_paragraph_break (summaries : list SessionSummary) (date_str : str) :
summaries <> [] ->
exists before after,
  _fallback_narrative summaries date_str = before ++ [newline; newline] ++ after.
Proof.
intros H. destruct summaries as [|s rest]; [congruence|].
unfold _fallback_narrative.
eexists (_ ++ _ ++ _), _. apply app_three.
Qed.

(** C4, as the claim has it, fails on both outputs: the narrative of one
  session at Home is not what the sanitizer makes of it, and neither is
  the caregiver summary of one session at a place named [hhrr]. *)
Lemma report_final_pass_counterexample :
_sanitize_text
  (memory_story (generate_ai_story_with_ollama [summary_at [py "Home"]] (py "2025-01-01")))
<> memory_story (generate_ai_story_with_ollama [summary_at [py "Home"]] (py "2025-01-01"))
/\ _sanitize_text
     (caregiver_summary (generate_ai_story_with_ollama [summary_at [py "hhrr"]] (py "2025-01-01")))
   <> caregiver_summary (generate_ai_story_with_ollama [summary_at [py "hhrr"]] (py "2025-01-01")).
Proof. split; vm_compute; discriminate. Qed.

(** C4, as the code has it.  For a non-empty list of session summaries, the
  caregiver summary is the bullets joined by newlines after each bullet
  went through the sanitizer, so each of its bullets is tidy; the
  narrative is returned as [_fallback_narrative] built it, with no pass of
  the sanitizer over it, and the sanitizer would change it, since it holds
  the blank line between its two paragraphs. *)
Theorem report_sanitizer_passes (summaries : list SessionSummary) (date_str : str) :
summaries <> [] ->
let report := generate_ai_story_with_ollama summaries date_str in
caregiver_summary report
  = join [newline] (map _sanitize_text (caregiver_bullets summaries))
/\ Forall (fun bullet => spaced_once bullet = true /\ strip bullet = bullet)
     (map _sanitize_text (caregiver_bullets summaries))
/\ memory_story report = _fallback_narrative summaries date_str
/\ _sanitize_text (memory_story report) <> memory_story report.
Proof.
intros Hne report. split.
- destruct summaries; [congruence|reflexivity].
- split.
  + apply Forall_forall. intros b Hb. apply in_map_iff in Hb as (raw & <- & _).
    apply sanitize_tidy.
  + split; [reflexivity|]. cbn [report generate_ai_story_with_ollama memory_story].
    intros E. destruct (sanitize_tidy (_fallback_narrative summaries date_str))
      as [Hsp _].
    rewrite E in Hsp.
    destruct (narrative_paragraph_break date_str Hne) as (before & after & Hn).
    rewrite Hn, paragraph_break_not_spaced in Hsp. discriminate.
Qed.

Lemma report_sanitizer_passes_witness :
let summaries := [summary_at [py "Home"]] in
let report := generate_ai_story_with_ollama summaries (py "2025-01-01") in
caregiver_summary report
  = join [newline] (map _sanitize_text (caregiver_bullets summaries))
/\ Forall (fun bullet => spaced_once bullet = true /\ strip bullet = bullet)
     (map _sanitize_text (caregiver_bullets summaries))
/\ memory_story report = _fallback_narrative summaries (py "2025-01-01")
/\ _sanitize_text (memory_story report) <> memory_story report.
Proof.
apply (@report_sanitizer_passes [summary_at [py "Home"]] (py "2025-01-01")).
discriminate.
Defined.


(** * Further properties of the pipeline *)

(** ** The day filter, continued *)

Section StableOrder.
Variable A : Type.
Variable key : A -> Z.

Lemma key_le_trans : Relations_1.Transitive (key_le key).
Proof. intros x y z. unfold key_le. lia. Qed.

Lemma sorted_head_le (x : A) (l : list A) :
  Sorted (key_le key) (x :: l) -> forall y, In y l -> key x <= key y.
Proof.
  intros H y Hy. apply (Sorted_extends key_le_trans) in H.
  rewrite Forall_forall in H. now apply H.
Qed.

Lemma filter_key_head (x : A) (l : list A) :
  exists l', filter (fun e => key e =? key x) (x :: l) = x :: l'.
Proof. simpl. rewrite Z.eqb_refl. eauto. Qed.

(** Two ascending lists that agree on the elements of each key, in order,
    are one list. *)
Lemma stable_unique (l1 : list A) :
  forall l2,
    Sorted (key_le key) l1 -> Sorted (key_le key) l2 ->
    (forall t, filter (fun e => key e =? t) l1 = filter (fun e => key e =? t) l2) ->
    l1 = l2.
Proof.
  induction l1 as [|x l1 IH]; intros l2 H1 H2 Hf.
  - destruct l2 as [|y l2]; [reflexivity|].
    destruct (filter_key_head y l2) as [l' Hy]. specialize (Hf (key y)).
    rewrite Hy in Hf. discriminate.
  - destruct l2 as [|y l2].
    { destruct (filter_key_head x l1) as [l' Hx]. specialize (Hf (key x)).
      rewrite Hx in Hf. discriminate. }
    assert (key y <= key x) as Hyx.
    { destruct (filter_key_head x l1) as [l' Hx]. pose proof (Hf (key x)) as E.
      rewrite Hx in E.
      assert (In x (filter (fun e => key e =? key x) (y :: l2))) as Hin
        by (rewrite <- E; now left).
      apply filter_In in Hin as [[->|Hin] _]; [lia|].
      now apply (sorted_head_le H2). }
    assert (key x <= key y) as Hxy.
    { destruct (filter_key_head y l2) as [l' Hy]. pose proof (Hf (key y)) as E.
      rewrite Hy in E.
      assert (In y (filter (fun e => key e =? key y) (x :: l1))) as Hin
        by (rewrite E; now left).
      apply filter_In in Hin as [[->|Hin] _]; [lia|].
      now apply (sorted_head_le H1). }
    assert (key x = key y) as Hk by lia.
    pose proof (Hf (key x)) as E. simpl in E.
    rewrite Z.eqb_refl, <- Hk, Z.eqb_refl in E. injection E as -> E.
    f_equal. apply IH.
    + now apply Sorted_inv in H1.
    + now apply Sorted_inv in H2.
    + intros t. specialize (Hf t). simpl in Hf.
      destruct (key y =? t); [now injection Hf|exact Hf].
Qed.

Lemma sorted_id (l : list A) : Sorted (key_le key) l -> sorted key l = l.
Proof.
  intros H. apply stable_unique.
  - apply sorted_sorted.
  - exact H.
  - intros t. apply sorted_stable.
Qed.
End StableOrder.

Lemma filter_all {A} (p : A -> bool) (l : list A) :
  (forall x, In x l -> p x = true) -> filter p l = l.
Proof.
  induction l as [|x l IH]; intros H; simpl; [reflexivity|].
  rewrite (H x) by now left. f_equal. apply IH. intros y Hy. apply H. now right.
Qed.

Lemma filter_none {A} (p : A -> bool) (l : list A) :
  (forall x, In x l -> p x = false) -> filter p l = [].
Proof.
  induction l as [|x l IH]; intros H; simpl; [reflexivity|].
  rewrite (H x) by now left. apply IH. intros y Hy. apply H. now right.
Qed.

Lemma filter_events_on_day (events : list Event) (d : date) (e : Event) :
  In e (filter_events_for_day events d) -> datetime_date (timestamp_start e) = d.
Proof.
  intros H. unfold filter_events_for_day in H.
  apply (Permutation_in _ (sorted_perm timestamp_start _)) in H.
  apply filter_In in H as [_ H]. now apply Z.eqb_eq.
Qed.

Lemma filter_events_sorted (events : list Event) (d : date) :
  time_sorted (filter_events_for_day events d).
Proof. apply sorted_sorted. Qed.

(** X1. The result of [filter_events_for_day] is the only list that holds
    the events of the target date in ascending order of start with the
    events of each start time in their input order: any list with these
    properties is that result. *)
Theorem filter_events_for_day_unique
    (events : list Event) (target_date : date) (l : list Event) :
  time_sorted l ->
  (forall t, filter (starts_at t) l =
             filter (starts_at t) (filter (on_day target_date) events)) ->
  l = filter_events_for_day events target_date.
Proof.
  intros Hs Hf. apply (stable_unique (key := timestamp_start)).
  - exact Hs.
  - apply filter_events_sorted.
  - intros t. unfold filter_events_for_day.
    rewrite (sorted_stable timestamp_start). apply Hf.
Qed.

Lemma filter_events_for_day_unique_witness :
  morning_events = filter_events_for_day morning_events 739251.
Proof.
  apply (@filter_events_for_day_unique morning_events 739251 morning_events).
  - exact morning_events_sorted.
  - intros t.
    replace (filter (on_day 739251) morning_events) with morning_events
      by (vm_compute; reflexivity).
    reflexivity.
Defined.

(** X2. Filtering the result of [filter_events_for_day] for the same date
    gives it back, and filtering it for another date gives the empty list. *)
Theorem filter_events_for_day_again (events : list Event) (target_date : date) :
  let result := filter_events_for_day events target_date in
  filter_events_for_day result target_date = result
  /\ (forall other, other <> target_date -> filter_events_for_day result other = []).
Proof.
  intros result. split.
  - unfold filter_events_for_day at 1.
    rewrite filter_all.
    + apply sorted_id, filter_events_sorted.
    + intros e He. apply Z.eqb_eq. now apply filter_events_on_day in He.
  - intros other Hne. unfold filter_events_for_day at 1.
    rewrite filter_none; [reflexivity|].
    intros e He. apply Z.eqb_neq. apply filter_events_on_day in He. congruence.
Qed.

(** ** The session grouper, continued *)

Lemma not_duration_overflow (gap_minutes : Z) :
  ~ is_duration gap_minutes -> timedelta_minutes gap_minutes = Raise OverflowError.
Proof.
  unfold is_duration, timedelta_minutes. intros H.
  destruct (Z.leb_spec (- max_timedelta_days) (gap_minutes / 1440)) as [H1|H1];
    [|reflexivity].
  destruct (Z.leb_spec (gap_minutes / 1440) max_timedelta_days) as [H2|H2];
    [|reflexivity].
  exfalso. apply H. unfold max_timedelta_days in *.
  pose proof (Z.mul_div_le gap_minutes 1440 ltac:(lia)).
  pose proof (Z.mul_succ_div_gt gap_minutes 1440 ltac:(lia)). lia.
Qed.

Lemma is_duration_dec (gap_minutes : Z) :
  is_duration gap_minutes \/ ~ is_duration gap_minutes.
Proof. unfold is_duration. lia. Qed.

(** X3. [group_into_sessions] raises in one case only: the list has two or
    more events and [gap_minutes] is outside the range of [timedelta]; the
    exception is then [OverflowError]. *)
Theorem group_into_sessions_raises
    (events : list Event) (gap_minutes : Z) (e : exn) :
  group_into_sessions events gap_minutes = Raise e <->
  e = OverflowError /\ ~ is_duration gap_minutes /\ (2 <= List.length events)%nat.
Proof.
  split.
  - intros H. destruct (is_duration_dec gap_minutes) as [Hd|Hd].
    + apply is_duration_timedelta in Hd.
      rewrite (@group_into_sessions_sessions_of _ _ Hd) in H. discriminate.
    + destruct events as [|a [|b rest]]; try discriminate.
      unfold group_into_sessions in H. cbn [combine for_each] in H.
      unfold session_step in H at 1.
      rewrite (not_duration_overflow Hd) in H. cbn [bind] in H.
      injection H as <-. repeat split; [exact Hd|simpl; lia].
  - intros (-> & Hd & Hlen). destruct events as [|a [|b rest]]; simpl in Hlen; try lia.
    unfold group_into_sessions. cbn [combine for_each].
    unfold session_step at 1.
    now rewrite (not_duration_overflow Hd).
Qed.

Lemma group_into_sessions_raises_witness :
  group_into_sessions morning_events (10 ^ 13) = Raise OverflowError.
Proof.
  apply (proj2 (@group_into_sessions_raises morning_events (10 ^ 13) OverflowError)).
  split; [reflexivity|]. split; [|simpl; lia].
  unfold is_duration, max_timedelta_days. lia.
Defined.

Section Counting.
Variable limit : timedelta.

Lemma push_length (a : Event) (ss : list (list Event)) :
  ss <> [] -> List.length (push a ss) = List.length ss.
Proof. destruct ss; [congruence|reflexivity]. Qed.

Lemma sessions_of_not_nil (a : Event) (rest : list Event) :
  sessions_of limit (a :: rest) <> [].
Proof.
  destruct (sessions_of_head limit a rest) as (s & ss & H). rewrite H. discriminate.
Qed.

Lemma sessions_of_length (events : list Event) :
  events <> [] ->
  List.length (sessions_of limit events) = S (boundaries limit events).
Proof.
  induction events as [|a rest IH]; [congruence|]. intros _.
  destruct rest as [|b rest]; [reflexivity|].
  rewrite sessions_of_cons.
  change (boundaries limit (a :: b :: rest))
    with (if gap_between a b <=? limit
          then boundaries limit (b :: rest)
          else S (boundaries limit (b :: rest))).
  destruct (gap_between a b <=? limit).
  - rewrite push_length by apply sessions_of_not_nil. apply IH. discriminate.
  - simpl List.length. f_equal. apply IH. discriminate.
Qed.

Lemma boundaries_bound (events : list Event) :
  (boundaries limit events < List.length events \/ events = [])%nat.
Proof.
  induction events as [|a rest IH]; [now right|]. left.
  destruct rest as [|b rest]; [simpl; lia|].
  change (boundaries limit (a :: b :: rest))
    with (if gap_between a b <=? limit
          then boundaries limit (b :: rest)
          else S (boundaries limit (b :: rest))).
  destruct IH as [IH|IH]; [|discriminate].
  destruct (_ <=? _); simpl in *; lia.
Qed.
End Counting.

Lemma boundaries_antitone (l1 l2 : timedelta) (events : list Event) :
  l1 <= l2 -> (boundaries l2 events <= boundaries l1 events)%nat.
Proof.
  intros Hle. induction events as [|a rest IH]; [reflexivity|].
  destruct rest as [|b rest]; [reflexivity|].
  change (boundaries l2 (a :: b :: rest))
    with (if gap_between a b <=? l2
          then boundaries l2 (b :: rest) else S (boundaries l2 (b :: rest))).
  change (boundaries l1 (a :: b :: rest))
    with (if gap_between a b <=? l1
          then boundaries l1 (b :: rest) else S (boundaries l1 (b :: rest))).
  destruct (Z.leb_spec (gap_between a b) l2), (Z.leb_spec (gap_between a b) l1); lia.
Qed.

(** X4. For a non-empty list of events and a threshold that is a duration,
    the number of sessions is one more than the number of events that start
    more than the threshold after the event before them, and it is at most
    the number of events. *)
Theorem group_into_sessions_count (events : list Event) (gap_minutes : Z) :
  is_duration gap_minutes ->
  events <> [] ->
  exists sessions,
    group_into_sessions events gap_minutes = Ok sessions
    /\ List.length sessions = S (boundaries (gap_minutes * us_per_minute) events)
    /\ (1 <= List.length sessions <= List.length events)%nat.
Proof.
  intros Hd Hne. apply is_duration_timedelta in Hd.
  exists (sessions_of (gap_minutes * us_per_minute) events).
  split; [now apply group_into_sessions_sessions_of|].
  rewrite sessions_of_length by exact Hne. split; [reflexivity|].
  destruct (boundaries_bound (gap_minutes * us_per_minute) events); [lia|congruence].
Qed.

Lemma group_into_sessions_count_witness :
  exists sessions,
    group_into_sessions morning_events 60 = Ok sessions
    /\ List.length sessions = S (boundaries (60 * us_per_minute) morning_events)
    /\ (1 <= List.length sessions <= List.length morning_events)%nat.
Proof.
  apply (@group_into_sessions_count morning_events 60).
  - unfold is_duration, max_timedelta_days. lia.
  - discriminate.
Defined.

(** X5. A larger threshold never gives more sessions: for two durations
    with [smaller <= larger], the sessions of the larger threshold are at most
    as many as those of the smaller. *)
Theorem group_into_sessions_coarser
    (events : list Event) (smaller larger : Z) :
  is_duration smaller -> is_duration larger -> smaller <= larger ->
  exists fine coarse,
    group_into_sessions events smaller = Ok fine
    /\ group_into_sessions events larger = Ok coarse
    /\ (List.length coarse <= List.length fine)%nat.
Proof.
  intros H1 H2 Hle.
  apply is_duration_timedelta in H1, H2.
  exists (sessions_of (smaller * us_per_minute) events),
         (sessions_of (larger * us_per_minute) events).
  split; [now apply group_into_sessions_sessions_of|].
  split; [now apply group_into_sessions_sessions_of|].
  destruct events as [|a rest]; [reflexivity|].
  rewrite !sessions_of_length by discriminate.
  apply le_n_S, boundaries_antitone. unfold us_per_minute. lia.
Qed.

Lemma group_into_sessions_coarser_witness :
  exists fine coarse,
    group_into_sessions morning_events 20 = Ok fine
    /\ group_into_sessions morning_events 60 = Ok coarse
    /\ (List.length coarse <= List.length fine)%nat.
Proof.
  apply (@group_into_sessions_coarser morning_events 20 60);
    unfold is_duration, max_timedelta_days; lia.
Defined.

Lemma adjacent_head {A} (a b : A) (l : list A) : adjacent a b (a :: b :: l).
Proof. now exists [], l. Qed.

(** X6. When every event starts at most the threshold after the event
    before it, the events form one session. *)
Theorem group_into_sessions_one_session (events : list Event) (gap_minutes : Z) :
  is_duration gap_minutes ->
  events <> [] ->
  (forall x y, adjacent x y events -> gap_between x y <= gap_minutes * us_per_minute) ->
  group_into_sessions events gap_minutes = Ok [events].
Proof.
  intros Hd Hne Hgap. apply is_duration_timedelta in Hd.
  rewrite (@group_into_sessions_sessions_of _ _ Hd). f_equal.
  induction events as [|a rest IH]; [congruence|].
  destruct rest as [|b rest]; [reflexivity|].
  rewrite sessions_of_cons.
  assert ((gap_between a b <=? gap_minutes * us_per_minute) = true) as ->
    by (apply Z.leb_le, Hgap, adjacent_head).
  rewrite IH; [reflexivity|discriminate|].
  intros x y Hxy. apply Hgap. now apply adjacent_cons.
Qed.

Lemma group_into_sessions_one_session_witness :
  group_into_sessions morning_events 120 = Ok [morning_events].
Proof.
  apply (@group_into_sessions_one_session morning_events 120).
  - unfold is_duration, max_timedelta_days. lia.
  - discriminate.
  - intros x y Hxy. unfold morning_events in Hxy.
    apply adjacent_cons_inv in Hxy as [[-> [l2 E]]|Hxy];
      [injection E as <- _; vm_compute; discriminate|].
    apply adjacent_cons_inv in Hxy as [[-> [l2 E]]|Hxy];
      [injection E as <- _; vm_compute; discriminate|].
    now apply adjacent_one in Hxy.
Defined.

(** X7. When every event starts more than the threshold after the event
    before it, each event is a session of its own. *)
Theorem group_into_sessions_all_apart (events : list Event) (gap_minutes : Z) :
  is_duration gap_minutes ->
  (forall x y, adjacent x y events -> gap_between x y > gap_minutes * us_per_minute) ->
  group_into_sessions events gap_minutes = Ok (map (fun e => [e]) events).
Proof.
  intros Hd Hgap. apply is_duration_timedelta in Hd.
  rewrite (@group_into_sessions_sessions_of _ _ Hd). f_equal.
  induction events as [|a rest IH]; [reflexivity|].
  destruct rest as [|b rest]; [reflexivity|].
  rewrite sessions_of_cons.
  assert ((gap_between a b <=? gap_minutes * us_per_minute) = false) as ->.
  { apply Z.leb_gt. pose proof (Hgap a b (adjacent_head a b rest)). lia. }
  rewrite IH; [reflexivity|].
  intros x y Hxy. apply Hgap. now apply adjacent_cons.
Qed.

Lemma group_into_sessions_all_apart_witness :
  group_into_sessions morning_events 20 = Ok (map (fun e => [e]) morning_events).
Proof.
  apply (@group_into_sessions_all_apart morning_events 20).
  - unfold is_duration, max_timedelta_days. lia.
  - intros x y Hxy. unfold morning_events in Hxy.
    apply adjacent_cons_inv in Hxy as [[-> [l2 E]]|Hxy];
      [injection E as <- _; vm_compute; reflexivity|].
    apply adjacent_cons_inv in Hxy as [[-> [l2 E]]|Hxy];
      [injection E as <- _; vm_compute; reflexivity|].
    now apply adjacent_one in Hxy.
Defined.

Lemma push_app (p : Event) (xs ys : list (list Event)) :
  xs <> [] -> push p (xs ++ ys) = push p xs ++ ys.
Proof. destruct xs; [congruence|reflexivity]. Qed.

Lemma sessions_of_cut (limit : timedelta) (a b : Event) (l2 : list Event) :
  gap_between a b > limit ->
  forall l1,
    sessions_of limit (l1 ++ a :: b :: l2) =
    sessions_of limit (l1 ++ [a]) ++ sessions_of limit (b :: l2).
Proof.
  intros Hgap. induction l1 as [|p l1 IH].
  - simpl app. rewrite sessions_of_cons.
    assert ((gap_between a b <=? limit) = false) as -> by (apply Z.leb_gt; lia).
    reflexivity.
  - destruct l1 as [|q l1].
    + change ([p] ++ a :: b :: l2) with (p :: a :: b :: l2).
      change ([p] ++ [a]) with (p :: a :: []).
      change ([] ++ a :: b :: l2) with (a :: b :: l2) in IH.
      change ([] ++ [a]) with [a] in IH.
      rewrite (@sessions_of_cons limit p a (b :: l2)),
        (@sessions_of_cons limit p a []), IH.
      destruct (gap_between p a <=? limit); reflexivity.
    + change ((p :: q :: l1) ++ a :: b :: l2) with (p :: q :: (l1 ++ a :: b :: l2)).
      change ((p :: q :: l1) ++ [a]) with (p :: q :: (l1 ++ [a])).
      rewrite (@sessions_of_cons limit p q (l1 ++ a :: b :: l2)),
        (@sessions_of_cons limit p q (l1 ++ [a])).
      change (q :: l1 ++ a :: b :: l2) with ((q :: l1) ++ a :: b :: l2).
      rewrite IH. change ((q :: l1) ++ [a]) with (q :: (l1 ++ [a])).
      destruct (gap_between p q <=? limit); [|reflexivity].
      apply push_app, sessions_of_not_nil.
Qed.

(** X8. Grouping is local: where an event starts more than the threshold
    after the event before it, the sessions of the whole list are the
    sessions of the events up to that place followed by the sessions of the
    events from there on. *)
Theorem group_into_sessions_cut
    (before : list Event) (a b : Event) (after : list Event) (gap_minutes : Z) :
  is_duration gap_minutes ->
  gap_between a b > gap_minutes * us_per_minute ->
  exists first_part second_part,
    group_into_sessions (before ++ [a]) gap_minutes = Ok first_part
    /\ group_into_sessions (b :: after) gap_minutes = Ok second_part
    /\ group_into_sessions (before ++ a :: b :: after) gap_minutes
       = Ok (first_part ++ second_part).
Proof.
  intros Hd Hgap. apply is_duration_timedelta in Hd.
  exists (sessions_of (gap_minutes * us_per_minute) (before ++ [a])),
         (sessions_of (gap_minutes * us_per_minute) (b :: after)).
  rewrite !(@group_into_sessions_sessions_of _ _ Hd).
  repeat split. now rewrite sessions_of_cut.
Qed.

Lemma group_into_sessions_cut_witness :
  exists first_part second_part,
    group_into_sessions
      ([event_at (at_time 9 0) None] ++ [event_at (at_time 9 30) None]) 60
      = Ok first_part
    /\ group_into_sessions (event_at (at_time 11 30) None :: []) 60 = Ok second_part
    /\ group_into_sessions
         ([event_at (at_time 9 0) None]
            ++ event_at (at_time 9 30) None :: event_at (at_time 11 30) None :: [])
         60
       = Ok (first_part ++ second_part).
Proof.
  apply (@group_into_sessions_cut [event_at (at_time 9 0) None]
           (event_at (at_time 9 30) None) (event_at (at_time 11 30) None) [] 60).
  - unfold is_duration, max_timedelta_days. lia.
  - vm_compute. reflexivity.
Defined.

(** ** The filter, the grouper and the summarizer together *)

Lemma Sorted_app_inv {A} (R : A -> A -> Prop) (l1 l2 : list A) :
  Sorted R (l1 ++ l2) -> Sorted R l1 /\ Sorted R l2.
Proof.
  induction l1 as [|x l1 IH]; simpl; intros H; [split; [constructor|exact H]|].
  apply Sorted_inv in H as [H Hhd]. destruct (IH H) as [H1 H2].
  split; [|exact H2]. constructor; [exact H1|].
  destruct l1; [constructor|]. inversion Hhd; subst. now constructor.
Qed.

Lemma in_concat_infix {A} (s : list A) (ss : list (list A)) :
  In s ss -> exists l1 l2, concat ss = l1 ++ s ++ l2.
Proof.
  intros H. apply in_split in H as (p & q & ->).
  exists (concat p), (concat q). rewrite concat_app. reflexivity.
Qed.

Lemma session_of_sorted (events : list Event) (sessions : list (list Event))
    (s : list Event) :
  concat sessions = events -> time_sorted events -> In s sessions -> time_sorted s.
Proof.
  intros Hc Hs Hin. destruct (@in_concat_infix _ _ _ Hin) as (l1 & l2 & E).
  unfold time_sorted in *. rewrite <- Hc, E in Hs.
  apply Sorted_app_inv in Hs as [_ Hs]. now apply Sorted_app_inv in Hs as [Hs _].
Qed.

Lemma session_of_events (events : list Event) (sessions : list (list Event))
    (s : list Event) (e : Event) :
  concat sessions = events -> In s sessions -> In e s -> In e events.
Proof.
  intros Hc Hs He. rewrite <- Hc. apply in_concat. eauto.
Qed.

(** X9. Grouping what the day filter returns: for every list of events,
    every date and every threshold that is a duration, the grouper succeeds
    on the filter's result, and each session is non-empty, in ascending order
    of start, and made of events of the input that start on that date. *)
Theorem sessions_of_a_day (events : list Event) (target_date : date) (gap_minutes : Z) :
  is_duration gap_minutes ->
  exists sessions,
    group_into_sessions (filter_events_for_day events target_date) gap_minutes
      = Ok sessions
    /\ concat sessions = filter_events_for_day events target_date
    /\ forall s, In s sessions ->
         s <> [] /\ time_sorted s
         /\ forall e, In e s ->
              In e events /\ datetime_date (timestamp_start e) = target_date.
Proof.
  intros Hd. apply is_duration_timedelta in Hd.
  set (day := filter_events_for_day events target_date).
  exists (sessions_of (gap_minutes * us_per_minute) day).
  split; [now apply group_into_sessions_sessions_of|].
  pose proof (sessions_of_concat (gap_minutes * us_per_minute) day) as Hc.
  split; [exact Hc|]. intros s Hs. split; [|split].
  - pose proof (sessions_of_nonempty (gap_minutes * us_per_minute) day) as Hn.
    rewrite Forall_forall in Hn. now apply Hn.
  - apply (@session_of_sorted _ _ _ Hc); [apply filter_events_sorted|exact Hs].
  - intros e He. pose proof (@session_of_events _ _ _ _ Hc Hs He) as Hin. split.
    + unfold day, filter_events_for_day in Hin.
      apply (Permutation_in _ (sorted_perm timestamp_start _)) in Hin.
      now apply filter_In in Hin.
    + now apply filter_events_on_day in Hin.
Qed.

Lemma sessions_of_a_day_witness :
  exists sessions,
    group_into_sessions (filter_events_for_day (rev morning_events) 739251) 60
      = Ok sessions
    /\ concat sessions = filter_events_for_day (rev morning_events) 739251
    /\ forall s, In s sessions ->
         s <> [] /\ time_sorted s
         /\ forall e, In e s ->
              In e (rev morning_events)
              /\ datetime_date (timestamp_start e) = 739251.
Proof.
  apply (@sessions_of_a_day (rev morning_events) 739251 60).
  unfold is_duration, max_timedelta_days. lia.
Defined.

Section Summaries.
Variable set_iter : list str -> list str.

Lemma summarize_nonempty (s : list Event) :
  s <> [] ->
  exists u, summarize_session set_iter s = Ok u
            /\ raw_events u = s
            /\ start u = timestamp_start (hd (event_at 0 None) s).
Proof.
  destruct s as [|first rest]; [congruence|]. intros _.
  eexists. split; [reflexivity|]. split; reflexivity.
Qed.

Lemma map_result_summaries (sessions : list (list Event)) :
  Forall (fun s => s <> []) sessions ->
  exists summaries,
    Engine.map_result (summarize_session set_iter) sessions = Ok summaries
    /\ Forall2 (fun s u => summarize_session set_iter s = Ok u) sessions summaries.
Proof.
  induction 1 as [|s sessions Hs _ IH].
  - exists []. split; [reflexivity|constructor].
  - destruct IH as (summaries & Hrun & Hall).
    destruct (@summarize_nonempty _ Hs) as (u & Hu & _).
    exists (u :: summaries). split.
    + cbn [Engine.map_result]. rewrite Hu. cbn [bind]. rewrite Hrun. reflexivity.
    + now constructor.
Qed.

Lemma summaries_raw_events (sessions : list (list Event))
    (summaries : list SessionSummary) :
  Forall2 (fun s u => summarize_session set_iter s = Ok u) sessions summaries ->
  map raw_events summaries = sessions.
Proof.
  induction 1 as [|s u sessions summaries Hu _ IH]; [reflexivity|].
  simpl. rewrite IH. f_equal.
  destruct s as [|first rest]; [discriminate|]. now injection Hu as <-.
Qed.
End Summaries.

(** X10. Summarizing what the grouper returns never raises: for every list
    of events and every threshold that is a duration, each session gets a
    summary, and the [raw_events] of the summaries, in order, are the
    sessions, so together they are the events that were grouped. *)
Theorem summaries_of_sessions
    (set_iter : list str -> list str) (events : list Event) (gap_minutes : Z) :
  is_duration gap_minutes ->
  exists sessions summaries,
    group_into_sessions events gap_minutes = Ok sessions
    /\ Engine.map_result (summarize_session set_iter) sessions = Ok summaries
    /\ map raw_events summaries = sessions
    /\ concat (map raw_events summaries) = events.
Proof.
  intros Hd. apply is_duration_timedelta in Hd.
  exists (sessions_of (gap_minutes * us_per_minute) events).
  destruct (@map_result_summaries set_iter _
              (sessions_of_nonempty (gap_minutes * us_per_minute) events))
    as (summaries & Hrun & Hall).
  exists summaries. split; [now apply group_into_sessions_sessions_of|].
  split; [exact Hrun|]. apply summaries_raw_events in Hall.
  split; [exact Hall|]. rewrite Hall. apply sessions_of_concat.
Qed.

Lemma summaries_of_sessions_witness :
  exists sessions summaries,
    group_into_sessions morning_events 60 = Ok sessions
    /\ Engine.map_result (summarize_session first_seen) sessions = Ok summaries
    /\ map raw_events summaries = sessions
    /\ concat (map raw_events summaries) = morning_events.
Proof.
  apply (@summaries_of_sessions first_seen morning_events 60).
  unfold is_duration, max_timedelta_days. lia.
Defined.

Lemma sorted_first_le_last (first : Event) (rest : list Event) :
  time_sorted (first :: rest) ->
  timestamp_start first <= timestamp_start (last (first :: rest) first).
Proof.
  intros H. destruct rest as [|b rest]; [simpl; lia|].
  apply (sorted_head_le (key := timestamp_start) H).
  change (last (first :: b :: rest) first) with (last (b :: rest) first).
  clear H. revert b. induction rest as [|c rest IH]; intros b; [now left|].
  right. apply (IH c).
Qed.

(** X11. The span of a summary is not negative: for a non-empty session in
    ascending order of start whose last event, if it has an end, does not end
    before it starts, the start of the summary is at most its end. *)
Theorem summarize_session_span
    (set_iter : list str -> list str) (first : Event) (rest : list Event) :
  time_sorted (first :: rest) ->
  ends_after_start (last (first :: rest) first) ->
  exists summary,
    summarize_session set_iter (first :: rest) = Ok summary
    /\ start summary <= end_ summary.
Proof.
  intros Hs He. eexists. split; [reflexivity|]. cbn [start end_].
  pose proof (@sorted_first_le_last _ _ Hs) as Hle.
  destruct (timestamp_end (last (first :: rest) first)) as [t|] eqn:E.
  - specialize (He t E). lia.
  - exact Hle.
Qed.

Lemma summarize_session_span_witness :
  exists summary,
    summarize_session first_seen morning_events = Ok summary
    /\ start summary <= end_ summary.
Proof.
  apply (@summarize_session_span first_seen
           (event_at (at_time 9 0) (Some (py "Home")))
           [ event_at (at_time 9 30) (Some (py "Home"));
             event_at (at_time 11 30) (Some (py "Clinic")) ]).
  - exact morning_events_sorted.
  - intros t E. discriminate E.
Defined.

Lemma adjacent_Forall2 {A B} (R : A -> B -> Prop) (l : list A) (l' : list B)
    (u v : B) :
  Forall2 R l l' -> adjacent u v l' ->
  exists a b, adjacent a b l /\ R a u /\ R b v.
Proof.
  intros H (l1 & l2 & ->).
  apply Forall2_app_inv_r in H as (k1 & k2 & _ & H & ->).
  inversion H as [|a u' k2' t Ha H']; subst.
  inversion H' as [|b v' k2'' t' Hb _]; subst.
  exists a, b. split; [now exists k1, k2''|]. auto.
Qed.

Lemma sorted_head_le_last (l : list Event) (x : Event) :
  time_sorted (l ++ [x]) ->
  timestamp_start (hd (event_at 0 None) (l ++ [x])) <= timestamp_start x.
Proof.
  intros H. destruct l as [|a l]; [simpl; lia|]. simpl.
  apply (sorted_head_le (key := timestamp_start) H).
  apply in_or_app. right. now left.
Qed.

(** X12. On time-sorted events the summaries come more than the threshold
    apart: for a threshold that is a duration, each summary starts more than
    the threshold after the summary before it. *)
Theorem summaries_apart
    (set_iter : list str -> list str) (events : list Event) (gap_minutes : Z) :
  is_duration gap_minutes ->
  time_sorted events ->
  exists sessions summaries,
    group_into_sessions events gap_minutes = Ok sessions
    /\ Engine.map_result (summarize_session set_iter) sessions = Ok summaries
    /\ forall u v, adjacent u v summaries ->
         start v - start u > gap_minutes * us_per_minute.
Proof.
  intros Hd Hs. apply is_duration_timedelta in Hd.
  set (limit := gap_minutes * us_per_minute) in *.
  exists (sessions_of limit events).
  destruct (@map_result_summaries set_iter _ (sessions_of_nonempty limit events))
    as (summaries & Hrun & Hall).
  exists summaries. split; [now apply group_into_sessions_sessions_of|].
  split; [exact Hrun|]. intros u v Huv.
  destruct (@adjacent_Forall2 _ _ _ _ _ _ _ Hall Huv) as (s1 & s2 & Hadj & Hu & Hv).
  destruct (@sessions_of_across _ _ _ _ Hadj) as (l1 & x & y & l2 & -> & -> & Hgap).
  assert (In (l1 ++ [x]) (sessions_of limit events)) as Hin.
  { destruct Hadj as (p & q & ->). apply in_or_app. right. now left. }
  pose proof (@session_of_sorted _ _ _ (sessions_of_concat limit events) Hs Hin) as Hsorted.
  apply sorted_head_le_last in Hsorted.
  destruct (@summarize_nonempty set_iter (l1 ++ [x])) as (u' & Hu' & _ & Hstart);
    [destruct l1; discriminate|].
  rewrite Hu in Hu'. injection Hu' as <-.
  injection Hv as <-. cbn [start]. rewrite Hstart.
  unfold gap_between in Hgap. lia.
Qed.

Lemma summaries_apart_witness :
  exists sessions summaries,
    group_into_sessions morning_events 60 = Ok sessions
    /\ Engine.map_result (summarize_session first_seen) sessions = Ok summaries
    /\ forall u v, adjacent u v summaries ->
         start v - start u > 60 * us_per_minute.
Proof.
  apply (@summaries_apart first_seen morning_events 60).
  - unfold is_duration, max_timedelta_days. lia.
  - exact morning_events_sorted.
Defined.

(** ** The sanitizer, continued *)

Lemma lstrip_strip (s : str) : lstrip (strip s) = strip s.
Proof. unfold lstrip. apply drop_while_id, strip_head. Qed.

Lemma rstrip_strip (s : str) : rstrip (strip s) = strip s.
Proof.
  pose proof (strip_strip s) as H. unfold strip at 1 in H.
  now rewrite lstrip_strip in H.
Qed.

(** X13. Whatever the text, the result of the sanitizer has no two
    whitespace characters in a row and no whitespace at its start or at its
    end. *)
Theorem sanitize_result_tidy (text : str) :
  let result := _sanitize_text text in
  spaced_once result = true
  /\ lstrip result = result
  /\ rstrip result = result.
Proof.
  intros result. unfold result. rewrite sanitize_scrub. split; [|split].
  - apply strip_spaced, sub_spaces_spaced.
  - apply lstrip_strip.
  - apply rstrip_strip.
Qed.

Section Lengths.
Variable r : Re.regex.

(** Substituting the empty string never makes a text longer. *)
Lemma sub_from_delete_length (s : str) :
  forall prev n, (List.length (Re.sub_from r [] prev s n) <= List.length s)%nat.
Proof.
  induction s as [|c s IH]; intros prev n.
  - simpl. destruct (Re.matches r prev []); simpl; lia.
  - cbn [Re.sub_from]. destruct n as [|n].
    + destruct (Re.matches r prev (c :: s)) as [rest|].
      * destruct (List.length (c :: s) - List.length rest)%nat as [|m].
        -- simpl. specialize (IH (Some c) 0%nat). lia.
        -- simpl. specialize (IH (Some c) m). lia.
      * simpl. specialize (IH (Some c) 0%nat). lia.
    + simpl. specialize (IH (Some c) n). lia.
Qed.
End Lengths.

Lemma sub_spaces_length (s : str) :
  forall prev n,
    (List.length (Re.sub_from spaces_pattern (py " ") prev s n) <= List.length s)%nat.
Proof.
  induction s as [|c s IH]; intros prev n; [simpl; lia|].
  cbn [Re.sub_from]. destruct n as [|n].
  - rewrite spaces_match. destruct s as [|c2 s2].
    + simpl. lia.
    + destruct (Re.isspace c && Re.isspace c2).
      * pose proof (drop_while_length Re.isspace s2) as Hdw.
        cbn [List.length]. rewrite !Nat.sub_succ_l by (simpl in *; lia).
        change (py " " ++ ?x) with (" "%char :: x). cbn [List.length].
        specialize (IH (Some c) (S (List.length s2
                                    - List.length (drop_while Re.isspace s2)))).
        cbn [List.length] in IH. lia.
      * cbn [List.length]. specialize (IH (Some c) 0%nat).
        cbn [List.length] in IH. lia.
  - cbn [List.length]. specialize (IH (Some c) n). lia.
Qed.

Lemma remove_terms_length (terms : list str) :
  forall st,
    (List.length (fst (fold_left remove_term terms st)) <= List.length (fst st))%nat.
Proof.
  induction terms as [|term terms IH]; intros [text lowered]; [simpl; lia|].
  cbn [fold_left]. etransitivity; [apply IH|].
  unfold remove_term. destruct (contains term lowered); [|simpl; lia].
  cbn [fst]. apply sub_from_delete_length.
Qed.

Lemma strip_length (s : str) : (List.length (strip s) <= List.length s)%nat.
Proof.
  unfold strip, rstrip, lstrip. rewrite length_rev.
  etransitivity; [apply drop_while_length|]. rewrite length_rev.
  apply drop_while_length.
Qed.

(** X14. The sanitizer never makes a text longer. *)
Theorem sanitize_not_longer (text : str) :
  (List.length (_sanitize_text text) <= List.length text)%nat.
Proof.
  rewrite sanitize_scrub.
  etransitivity; [apply strip_length|].
  etransitivity; [apply sub_spaces_length|].
  unfold scrub. etransitivity; [apply remove_terms_length|]. cbn [fst].
  etransitivity; [apply sub_from_delete_length|].
  etransitivity; [apply sub_from_delete_length|].
  apply sub_from_delete_length.
Qed.

(** X15. [split_story_sections] returns a text without whitespace at its
    ends and an empty second section, and applied to its own first result it
    returns the same pair. *)
Theorem split_story_sections_stable (ai_text : str) :
  let sections := split_story_sections ai_text in
  snd sections = []
  /\ lstrip (fst sections) = fst sections
  /\ rstrip (fst sections) = fst sections
  /\ split_story_sections (fst sections) = sections.
Proof.
  intros sections. unfold sections, split_story_sections. cbn [fst snd].
  split; [reflexivity|]. split; [apply lstrip_strip|].
  split; [apply rstrip_strip|]. now rewrite strip_strip.
Qed.

(** ** The report generator, continued *)

Lemma filter_filter_comm {A} (p q : A -> bool) (l : list A) :
  filter p (filter q l) = filter q (filter p l).
Proof.
  induction l as [|x l IH]; simpl; [reflexivity|].
  destruct (q x) eqn:Eq, (p x) eqn:Ep; simpl; rewrite ?Eq, ?Ep, IH; reflexivity.
Qed.

Lemma filter_filter_weaker {A} (p q : A -> bool) (l : list A) :
  (forall x, p x = true -> q x = true) -> filter p (filter q l) = filter p l.
Proof.
  intros H. induction l as [|x l IH]; simpl; [reflexivity|].
  destruct (q x) eqn:Eq; simpl; rewrite IH; [reflexivity|].
  destruct (p x) eqn:Ep; [|reflexivity]. rewrite (H x Ep) in Eq. discriminate.
Qed.

Lemma filter_and {A} (p q : A -> bool) (l : list A) :
  filter p (filter q l) = filter (fun x => p x && q x) l.
Proof.
  induction l as [|x l IH]; simpl; [reflexivity|].
  destruct (q x) eqn:Eq; simpl; rewrite IH, ?andb_true_r, ?andb_false_r;
    reflexivity.
Qed.

Lemma first_seen_filter (p : str -> bool) (l : list str) :
  first_seen (filter p l) = filter p (first_seen l).
Proof.
  induction l as [|y l IH]; simpl; [reflexivity|].
  destruct (p y) eqn:Ep; simpl.
  - rewrite IH. f_equal. apply filter_filter_comm.
  - rewrite IH. symmetry. apply filter_filter_weaker.
    intros x Hx. apply negb_true_iff, str_eqb_neq. intros ->. congruence.
Qed.

Lemma member_app (x : str) (l1 l2 : list str) :
  member x (l1 ++ l2) = member x l1 || member x l2.
Proof. apply existsb_app. Qed.

(** The loop that appends the items not yet in the list keeps their order of
    first appearance. *)
Lemma append_loop (l : list str) :
  forall acc,
    fold_left append_if_new l acc =
    acc ++ first_seen (filter (fun x => negb (member x acc)) l).
Proof.
  induction l as [|x l IH]; intros acc; simpl; [now rewrite app_nil_r|].
  unfold append_if_new at 2. destruct (member x acc) eqn:E; simpl.
  - apply IH.
  - rewrite IH, <- app_assoc. simpl. do 2 f_equal.
    rewrite <- first_seen_filter, filter_and. f_equal.
    apply filter_ext. intros y. rewrite member_app. simpl.
    rewrite orb_false_r, negb_orb. apply andb_comm.
Qed.

Lemma append_loop_first_seen (l : list str) :
  fold_left append_if_new l [] = first_seen l.
Proof.
  rewrite append_loop. simpl. f_equal. apply filter_all. reflexivity.
Qed.

Lemma clean_titles_first_seen (raw_titles : list str) :
  _clean_titles_for_story raw_titles =
  join (py ", ") (firstn 3 (first_seen (flat_map title_segments raw_titles))).
Proof.
  unfold _clean_titles_for_story.
  destruct (flat_map title_segments raw_titles) as [|seg segs] eqn:E;
    [reflexivity|].
  now rewrite append_loop_first_seen.
Qed.

(** X16. The activity phrase that [_clean_titles_for_story] builds is made
    of the kept segments of the titles without repetition, in the order in
    which they first appear: the first three of them, joined by a comma and
    a space. *)
Theorem clean_titles_first_three (raw_titles : list str) :
  _clean_titles_for_story raw_titles =
  join (py ", ") (firstn 3 (first_seen (flat_map title_segments raw_titles))).
Proof. apply clean_titles_first_seen. Qed.

Lemma unique_loop (items : list str) :
  forall seen out,
    (forall x, member x seen = member x out) ->
    snd (fold_left unique_step items (seen, out)) =
    fold_left append_if_new (filter truthy items) out.
Proof.
  induction items as [|x items IH]; intros seen out Hsame; [reflexivity|].
  cbn [fold_left filter]. unfold unique_step at 2.
  destruct (truthy x) eqn:Et; cbn [andb].
  - cbn [fold_left]. unfold append_if_new at 2. rewrite <- Hsame.
    destruct (member x seen) eqn:Em; cbn [negb].
    + now apply IH.
    + apply IH. intros y. rewrite member_app. simpl.
      rewrite orb_false_r, Hsame. apply orb_comm.
  - now apply IH.
Qed.

(** X17. [_unique], the helper of the caregiver summary, returns the
    non-empty items without repetition, in the order in which they first
    appear. *)
Theorem unique_first_seen (items : list str) :
  _unique items = first_seen (filter truthy items)
  /\ NoDup (_unique items)
  /\ forall x, In x (_unique items) <-> In x items /\ x <> [].
Proof.
  assert (_unique items = first_seen (filter truthy items)) as E.
  { unfold _unique. rewrite unique_loop by reflexivity.
    apply append_loop_first_seen. }
  rewrite E. split; [reflexivity|]. split; [apply first_seen_NoDup|].
  intros x. rewrite first_seen_In, filter_In. unfold truthy.
  rewrite negb_true_iff, str_eqb_neq. reflexivity.
Qed.

Lemma firstn_In {A} (n : nat) (l : list A) (x : A) : In x (firstn n l) -> In x l.
Proof.
  intros H. rewrite <- (firstn_skipn n l). apply in_or_app. now left.
Qed.

Lemma firstn_NoDup {A} (n : nat) (l : list A) : NoDup l -> NoDup (firstn n l).
Proof.
  intros H. rewrite <- (firstn_skipn n l) in H. now apply NoDup_app_remove_r in H.
Qed.

Lemma join_no_digit (sep : str) (parts : list str) :
  existsb Re.isdigit sep = false ->
  (forall p, In p parts -> existsb Re.isdigit p = false) ->
  existsb Re.isdigit (join sep parts) = false.
Proof.
  intros Hsep. induction parts as [|p parts IH]; intros H; [reflexivity|].
  destruct parts as [|q parts]; [apply H; now left|].
  change (join sep (p :: q :: parts)) with (p ++ sep ++ join sep (q :: parts)).
  rewrite !existsb_app, Hsep, (H p) by now left. simpl.
  apply IH. intros x Hx. apply H. now right.
Qed.

(** What passing [keep_segment] means. *)
Lemma keep_segment_true (seg : str) :
  keep_segment seg = true ->
  (3 <= List.length seg)%nat
  /\ existsb Re.isalpha seg = true
  /\ existsb Re.isdigit seg = false
  /\ member (Re.lower seg) STOP_WORDS = false
  /\ contains (py "bpm") (Re.lower seg) = false
  /\ contains (py "stress") (Re.lower seg) = false
  /\ contains (py "steps") (Re.lower seg) = false.
Proof.
  unfold keep_segment. intros H.
  destruct (negb (truthy seg)); [discriminate|].
  destruct (member (Re.lower seg) STOP_WORDS); [discriminate|].
  destruct (existsb _ [py "bpm"; py "hr "; py "hr~"; py "stress"; py "steps"])
    eqn:Ek; [discriminate|].
  destruct (existsb Re.isdigit seg); [discriminate|].
  destruct (existsb Re.isalpha seg); [|discriminate].
  destruct (Nat.ltb_spec (List.length seg) 3); [discriminate|].
  cbn [existsb] in Ek. repeat (apply orb_false_elim in Ek as [?H Ek]).
  repeat split; auto.
Qed.

Lemma title_segments_kept (t seg : str) :
  In seg (title_segments t) -> keep_segment seg = true /\ strip seg = seg.
Proof.
  unfold title_segments. intros H. apply filter_In in H as [H Hk].
  split; [exact Hk|]. apply in_map_iff in H as (raw & <- & _). apply strip_strip.
Qed.

Lemma clean_titles_parts (raw_titles : list str) (seg : str) :
  In seg (firstn 3 (first_seen (flat_map title_segments raw_titles))) ->
  keep_segment seg = true /\ strip seg = seg.
Proof.
  intros H. apply firstn_In, first_seen_In, in_flat_map in H as (t & _ & H).
  now apply title_segments_kept in H.
Qed.

(** X18. The activity phrase of [_clean_titles_for_story] holds no digit.
    It is made of at most three different segments joined by a comma and a
    space, and each segment has at least three characters, a letter among
    them, no digit, and no whitespace at its ends. *)
Theorem clean_titles_safe (raw_titles : list str) :
  let phrase := _clean_titles_for_story raw_titles in
  existsb Re.isdigit phrase = false
  /\ exists segments,
       phrase = join (py ", ") segments
       /\ (List.length segments <= 3)%nat
       /\ NoDup segments
       /\ forall seg, In seg segments ->
            (3 <= List.length seg)%nat
            /\ existsb Re.isalpha seg = true
            /\ existsb Re.isdigit seg = false
            /\ strip seg = seg.
Proof.
  intros phrase. unfold phrase. rewrite clean_titles_first_seen.
  set (segments := firstn 3 (first_seen (flat_map title_segments raw_titles))).
  assert (forall seg, In seg segments ->
            (3 <= List.length seg)%nat
            /\ existsb Re.isalpha seg = true
            /\ existsb Re.isdigit seg = false
            /\ strip seg = seg) as Hseg.
  { intros seg H. apply clean_titles_parts in H as [Hk Hs].
    apply keep_segment_true in Hk. tauto. }
  split.
  - apply join_no_digit; [reflexivity|]. intros p Hp. now apply Hseg.
  - exists segments. split; [reflexivity|]. split; [apply firstn_le_length|].
    split; [apply firstn_NoDup, first_seen_NoDup|exact Hseg].
Qed.

(** *** Substrings across a separator *)

Lemma startswith_nil_r (k : str) : k <> [] -> startswith k [] = false.
Proof. destruct k; [congruence|reflexivity]. Qed.

Lemma startswith_through (c : ascii) (k : str) :
  existsb (Ascii.eqb c) k = false ->
  forall a b, startswith k (a ++ c :: b) = startswith k a.
Proof.
  induction k as [|x k IH]; intros Hk a b; [now destruct a|].
  simpl in Hk. apply orb_false_elim in Hk as [Hx Hk].
  destruct a as [|y a]; simpl.
  - rewrite Ascii.eqb_sym, Hx. reflexivity.
  - now rewrite (IH Hk a b).
Qed.

(** A text without the character [c] occurs in [a ++ c :: b] only where it
    occurs in [a] or in [b]. *)
Lemma contains_through (c : ascii) (k : str) :
  k <> [] -> existsb (Ascii.eqb c) k = false ->
  forall a b, contains k (a ++ c :: b) = contains k a || contains k b.
Proof.
  intros Hne Hk a b. induction a as [|y a IH].
  - cbn [app]. change (contains k (c :: b))
      with (startswith k (c :: b) || contains k b).
    pose proof (@startswith_through c k Hk [] b) as E. cbn [app] in E.
    rewrite E. simpl.
    now rewrite (@startswith_nil_r k Hne).
  - change (contains k ((y :: a) ++ c :: b))
      with (startswith k ((y :: a) ++ c :: b) || contains k (a ++ c :: b)).
    change (contains k (y :: a)) with (startswith k (y :: a) || contains k a).
    rewrite (@startswith_through c k Hk (y :: a) b), IH. apply orb_assoc.
Qed.

Lemma contains_join (k : str) (parts : list str) :
  k <> [] ->
  existsb (Ascii.eqb ","%char) k = false ->
  existsb (Ascii.eqb " "%char) k = false ->
  (forall p, In p parts -> contains k p = false) ->
  contains k (join (py ", ") parts) = false.
Proof.
  intros Hne Hc Hs. induction parts as [|p parts IH]; intros H.
  - simpl. now rewrite (@startswith_nil_r k Hne).
  - destruct parts as [|q parts]; [apply H; now left|].
    change (join (py ", ") (p :: q :: parts))
      with (p ++ ","%char :: ([] ++ " "%char :: join (py ", ") (q :: parts))).
    rewrite (@contains_through _ k Hne Hc), (@contains_through _ k Hne Hs).
    rewrite (H p) by now left. simpl. rewrite (@startswith_nil_r k Hne). simpl.
    apply IH. intros x Hx. apply H. now right.
Qed.

Lemma lower_app (a b : str) : Re.lower (a ++ b) = Re.lower a ++ Re.lower b.
Proof. apply map_app. Qed.

Lemma lower_join (parts : list str) :
  Re.lower (join (py ", ") parts) = join (py ", ") (map Re.lower parts).
Proof.
  induction parts as [|p parts IH]; [reflexivity|].
  destruct parts as [|q parts]; [reflexivity|].
  change (join (py ", ") (p :: q :: parts))
    with (p ++ py ", " ++ join (py ", ") (q :: parts)).
  rewrite !lower_app, IH. reflexivity.
Qed.

(** X19. The activity phrase of [_clean_titles_for_story] holds none of the
    words [bpm], [stress] and [steps], in whatever letter case; the narrative
    uses the phrase in lower case. *)
Theorem clean_titles_no_measurement_words (raw_titles : list str) :
  let phrase := Re.lower (_clean_titles_for_story raw_titles) in
  contains (py "bpm") phrase = false
  /\ contains (py "stress") phrase = false
  /\ contains (py "steps") phrase = false.
Proof.
  intros phrase. unfold phrase. rewrite clean_titles_first_seen, lower_join.
  assert (forall p,
            In p (map Re.lower
                    (firstn 3 (first_seen (flat_map title_segments raw_titles)))) ->
            contains (py "bpm") p = false
            /\ contains (py "stress") p = false
            /\ contains (py "steps") p = false) as H.
  { intros p Hp. apply in_map_iff in Hp as (seg & <- & Hseg).
    apply clean_titles_parts in Hseg as [Hk _].
    apply keep_segment_true in Hk. tauto. }
  repeat split; apply contains_join; try discriminate; try reflexivity;
    intros p Hp; now apply H.
Qed.

(** X20. The narrative tells the first four sessions only: the sentences are
    those of the first four summaries, and the narrative of a list of
    summaries is the narrative of its first four. *)
Theorem narrative_first_four (session_summaries : list SessionSummary)
    (target_date_str : str) :
  moment_sentences 1 session_summaries
    = map moment_sentence (firstn 4 session_summaries)
  /\ _fallback_narrative session_summaries target_date_str
     = _fallback_narrative (firstn 4 session_summaries) target_date_str.
Proof.
  assert (forall l, moment_sentences 1 l = map moment_sentence (firstn 4 l)) as H.
  { intros [|a [|b [|c [|d l]]]]; reflexivity. }
  split; [apply H|].
  unfold _fallback_narrative.
  destruct session_summaries as [|a [|b [|c [|d l]]]]; reflexivity.
Qed.

Lemma join_snoc (sep : str) (l : list str) (x : str) :
  l <> [] -> join sep (l ++ [x]) = join sep l ++ sep ++ x.
Proof.
  induction l as [|p l IH]; [congruence|]. intros _.
  destruct l as [|q l]; [reflexivity|].
  change (join sep ((p :: q :: l) ++ [x]))
    with (p ++ sep ++ join sep ((q :: l) ++ [x])).
  rewrite IH by discriminate.
  change (join sep (p :: q :: l)) with (p ++ sep ++ join sep (q :: l)).
  now rewrite <- !app_assoc.
Qed.

Lemma last_map {A B} (f : A -> B) (l : list A) (d : A) (d' : B) :
  l <> [] -> last (map f l) d' = f (last l d).
Proof.
  induction l as [|x l IH]; [congruence|]. intros _.
  destruct l as [|y l]; [reflexivity|].
  change (last (map f (x :: y :: l)) d') with (last (map f (y :: l)) d').
  change (last (x :: y :: l) d) with (last (y :: l) d).
  apply IH. discriminate.
Qed.

Lemma removelast_length {A} (l : list A) :
  List.length (removelast l) = Nat.pred (List.length l).
Proof.
  induction l as [|x l IH]; [reflexivity|].
  destruct l as [|y l]; [reflexivity|].
  change (removelast (x :: y :: l)) with (x :: removelast (y :: l)).
  cbn [List.length] in *. now rewrite IH.
Qed.

Lemma caregiver_bullets_frame (session_summaries : list SessionSummary) :
  (2 <= List.length (caregiver_bullets session_summaries) <= 6)%nat
  /\ last (caregiver_bullets session_summaries) []
     = py "- Continue gentle check-ins according to the usual routine.".
Proof.
  unfold caregiver_bullets. cbv zeta.
  destruct (_unique (flat_map locations session_summaries)),
    (_unique (flat_map people_ session_summaries)),
    (title_flag [py "call"] session_summaries),
    (title_flag [py "message"; py "whatsapp"; py "text"] session_summaries),
    (title_flag _ session_summaries);
    cbn [app List.length last]; split; try lia; reflexivity.
Qed.

(** X21. For a non-empty list of session summaries the caregiver summary
    has between two and six bullets, and it ends with a line break followed
    by the bullet on the usual routine, which the sanitizer leaves as it
    is. *)
Theorem caregiver_summary_frame (session_summaries : list SessionSummary) :
  session_summaries <> [] ->
  (2 <= List.length (caregiver_bullets session_summaries) <= 6)%nat
  /\ exists before,
       _rule_based_caregiver_summary session_summaries
       = before ++ [newline]
           ++ py "- Continue gentle check-ins according to the usual routine.".
Proof.
  intros Hne. destruct (caregiver_bullets_frame session_summaries) as [Hlen Hlast].
  split; [exact Hlen|].
  destruct session_summaries as [|s rest]; [congruence|].
  unfold _rule_based_caregiver_summary.
  set (bullets := map _sanitize_text (caregiver_bullets (s :: rest))).
  assert (List.length bullets = List.length (caregiver_bullets (s :: rest))) as Hl
    by apply length_map.
  assert (bullets <> []) as Hb by (intros E; rewrite E in Hl; simpl in Hl; lia).
  assert (last bullets []
          = py "- Continue gentle check-ins according to the usual routine.")
    as Hlast'.
  { unfold bullets.
    rewrite (@last_map _ _ _sanitize_text (caregiver_bullets (s :: rest)) [] [])
      by (intros E; rewrite E in Hlen; simpl in Hlen; lia).
    rewrite Hlast. vm_compute. reflexivity. }
  change (exists before,
            join [newline] bullets
            = before ++ [newline]
                ++ py "- Continue gentle check-ins according to the usual routine.").
  pose proof (@app_removelast_last str bullets [] Hb) as E. rewrite Hlast' in E.
  rewrite E, join_snoc.
  - eexists. reflexivity.
  - intros En. pose proof (removelast_length bullets) as Hr.
    rewrite En, Hl in Hr. cbn [List.length] in Hr. lia.
Qed.

Lemma caregiver_summary_frame_witness :
  (2 <= List.length (caregiver_bullets [summary_at [py "Home"]]) <= 6)%nat
  /\ exists before,
       _rule_based_caregiver_summary [summary_at [py "Home"]]
       = before ++ [newline]
           ++ py "- Continue gentle check-ins according to the usual routine.".
Proof.
  apply (@caregiver_summary_frame [summary_at [py "Home"]]). discriminate.
Defined.

(** ** The pipeline, continued *)

Lemma len_nonneg {A} (l : list A) : 0 <= Engine.len l.
Proof. unfold Engine.len. lia. Qed.



(** X23. The command line and [run_engine_for_date] agree.  When
    [run_engine_for_date] returns a result with events, [main] ends normally
    and the last four things it prints are the story heading, the memory
    story of that result, the summary heading and the caregiver summary of
    that result; when [run_engine_for_date] raises, [main] ends with the same
    exception. *)
Theorem main_prints_the_result
    (set_iter : list str -> list str)
    (events_by_source : Engine.sources) (target_date : date)
    (data_dir : str) (gap_minutes : Z) :
  (forall r,
     Engine.run_engine_for_date set_iter events_by_source target_date gap_minutes = Ok r ->
     Engine.total_events r <> 0 ->
     exists printed,
       Engine.main set_iter events_by_source target_date data_dir gap_minutes
       = (printed ++
            [ [newline] ++ py "=== MEMORY STORY (AI) ===" ++ [newline];
              Engine.memory_story r;
              [newline] ++ py "=== CAREGIVER SUMMARY (AI) ===" ++ [newline];
              Engine.caregiver_summary r ],
          Ok tt))
  /\ (forall e,
      Engine.run_engine_for_date set_iter events_by_source target_date gap_minutes
        = Raise e ->
      exists printed,
        Engine.main set_iter events_by_source target_date data_dir gap_minutes
        = (printed, Raise e)).
Proof.
  unfold Engine.run_engine_for_date, Engine.main, Engine.run_pipeline,
    Engine.print_pipeline.
  destruct (filter_events_for_day (flat_map snd events_by_source) target_date)
    as [|ev day].
  - split.
    + intros r H Hne. injection H as <-. now contradiction Hne.
    + intros e H. discriminate.
  - destruct (group_into_sessions (ev :: day) gap_minutes) as [sessions|e'];
      cbn [bind].
    + destruct (Engine.map_result (summarize_session set_iter) sessions)
        as [summaries|e']; cbn [bind].
      * split.
        -- intros r H _. injection H as <-. eexists. reflexivity.
        -- intros e H. discriminate.
      * split.
        -- intros r H. discriminate.
        -- intros e H. injection H as <-. eexists. reflexivity.
    + split.
      * intros r H. discriminate.
      * intros e H. injection H as <-. eexists. reflexivity.
Qed.

Lemma main_prints_the_result_witness :
  exists r printed,
    Engine.run_engine_for_date first_seen [(py "Calendar", morning_events)]
      739251 60 = Ok r
    /\ Engine.main first_seen [(py "Calendar", morning_events)] 739251 (py "data") 60
       = (printed ++
            [ [newline] ++ py "=== MEMORY STORY (AI) ===" ++ [newline];
              Engine.memory_story r;
              [newline] ++ py "=== CAREGIVER SUMMARY (AI) ===" ++ [newline];
              Engine.caregiver_summary r ],
          Ok tt).
Proof.
  eexists.
  destruct (proj1 (@main_prints_the_result first_seen
                     [(py "Calendar", morning_events)] 739251 (py "data") 60)
              _ eq_refl) as [printed H].
  - vm_compute. discriminate.
  - exists printed. split; [reflexivity|exact H].
Defined.

Lemma sum_lengths (events_by_source : Engine.sources) :
  forall acc,
    fold_left Z.add (map snd (Engine.source_counts events_by_source)) acc
    = acc + Engine.len (flat_map snd events_by_source).
Proof.
  unfold Engine.len.
  induction events_by_source as [|[name events] rest IH]; intros acc; simpl; [lia|].
  rewrite IH, length_app. unfold Engine.len. lia.
Qed.

(** X24. The total that [main] prints after the counts by source is the
    number of all loaded events, whatever the target date: the line is among
    the printed ones, and it is the sum of the counts by source that
    [run_engine_for_date] reports. *)
Theorem main_prints_total
    (set_iter : list str -> list str)
    (events_by_source : Engine.sources) (target_date : date)
    (data_dir : str) (gap_minutes : Z) :
  fold_left Z.add (map snd (Engine.source_counts events_by_source)) 0
    = Engine.len (flat_map snd events_by_source)
  /\ In ([newline] ++ py "Total events loaded (all days): "
           ++ str_of_int (Engine.len (flat_map snd events_by_source)))
        (fst (Engine.main set_iter events_by_source target_date data_dir gap_minutes)).
Proof.
  pose proof (sum_lengths events_by_source 0) as Hsum. simpl in Hsum.
  split; [exact Hsum|].
  unfold Engine.main, Engine.print_pipeline. rewrite Hsum. cbv zeta.
  destruct (filter_events_for_day (flat_map snd events_by_source) target_date)
    as [|e d].
  - cbn [fst]. rewrite !in_app_iff. left. right. right. now left.
  - destruct (group_into_sessions (e :: d) gap_minutes) as [sessions|err].
    + destruct (Engine.map_result _ sessions) as [summaries|err]; cbn [fst];
        rewrite !in_app_iff.
      * left. left. right. right. now left.
      * left. right. right. now left.
    + cbn [fst]. rewrite !in_app_iff. right. right. now left.
Qed.
